(** * malloctrace: an allocator-interposition tracer

    A shallow embedding of [src/malloctrace.cpp] and the properties of
    its event log.

    The tracer is preloaded into a process, takes the place of the
    allocator entry points ([malloc], [free], [realloc], [calloc],
    [posix_memalign], [aligned_alloc], [valloc]), forwards every call to
    the next definition of the symbol and, unless the per-thread flag
    [in_handler] is set, writes one record per call to the thread's
    output file, with the call stack compressed through a per-thread
    cache of instruction pointers.

    Conventions of the embedding:
    - [size_t], [unw_word_t] and pointers are 64-bit words, carried as
      [Z] with the wrap-around written out where the code does
      arithmetic ([wrap64]);
    - the process state the code reads and writes (the [real_*]
      pointers, the two counters, [in_handler], [threadData], the static
      offset of [dummy_calloc], the standard error stream) is one record,
      threaded through a state monad whose outcomes are a normal return,
      a call of [exit], or a call through a null function pointer;
    - what lies outside the file (the next allocator in load order,
      [dlsym], [getenv], [getpid], the file system, libunwind) is a
      [Platform] record, a parameter of every definition;
    - a stream is the list of the chunks written to it, one chunk per
      call of [fprintf], oldest first;
    - the embedding follows one thread: [in_handler] and [threadData]
      are its own, the [real_*] pointers and the two counters are those
      of the process, and no other thread runs in between. *)

From Stdlib Require Import ZArith String Ascii List Bool Lia.
From Stdlib Require DecimalString HexadecimalString DecimalPos DecimalN.
From stdpp Require Import gmap strings.
Import ListNotations.

Local Open Scope string_scope.
Local Open Scope Z_scope.

(** ** Machine words and [printf] conversions *)

Definition wrap64 (z : Z) : Z := z mod 2 ^ 64.

Definition dec_digits (z : Z) : string :=
  DecimalString.NilZero.string_of_uint (N.to_uint (Z.to_N z)).

Definition hex_digits (z : Z) : string :=
  HexadecimalString.NilZero.string_of_uint (N.to_hex_uint (Z.to_N z)).

(** [%lu]: an unsigned long in decimal. *)
Definition fmt_lu (z : Z) : string := dec_digits (wrap64 z).

(** [%lx]: an unsigned long in lower-case hexadecimal, no prefix. *)
Definition fmt_lx (z : Z) : string := hex_digits (wrap64 z).

(** [%ld]: the same 64 bits read as a signed long.  [handleMalloc]
    prints its [size_t] argument with this conversion. *)
Definition fmt_ld (z : Z) : string :=
  let w := wrap64 z in
  if w <? 2 ^ 63 then dec_digits w else "-" +:+ dec_digits (2 ^ 64 - w).

(** [%p] as glibc prints it: [(nil)] for the null pointer, otherwise
    [0x] and the address in lower-case hexadecimal. *)
Definition fmt_p (p : Z) : string :=
  if wrap64 p =? 0 then "(nil)" else "0x" +:+ hex_digits (wrap64 p).

(** [std::to_string(int)], used for the process id. *)
Definition to_string_int (z : Z) : string :=
  if z <? 0 then "-" +:+ dec_digits (- z) else dec_digits z.

(** [std::to_string(unsigned long)], used for the thread id. *)
Definition to_string_ulong (z : Z) : string := dec_digits (wrap64 z).

(** The line feed that ends the format strings of the source. *)
Definition newline : string := String "010" EmptyString.

(** ** C strings held in a character buffer *)

Definition NUL : ascii := Ascii.zero.

(** [buf[i]]; a position past the end of the modelled buffer reads as
    the terminator. *)
Definition char_at (buf : string) (i : nat) : ascii :=
  match String.get i buf with
  | Some c => c
  | None => NUL
  end.

(** The C string a buffer holds: its characters before the first NUL. *)
Fixpoint cstr (buf : string) : string :=
  match buf with
  | EmptyString => EmptyString
  | String c rest => if Ascii.eqb c NUL then EmptyString else String c (cstr rest)
  end.

Definition char_code (c : ascii) : Z := Z.of_N (N_of_ascii c).

(** [strcmp]: the difference of the first pair of characters that
    differ, the terminator included. *)
Fixpoint strcmp (a b : string) : Z :=
  match a, b with
  | String x a', String y b' =>
      if Ascii.eqb x NUL then 0 - (if Ascii.eqb y NUL then 0 else char_code y)
      else if Ascii.eqb x y then strcmp a' b'
      else char_code x - char_code y
  | String x _, EmptyString => if Ascii.eqb x NUL then 0 else char_code x
  | EmptyString, String y _ => 0 - char_code y
  | EmptyString, EmptyString => 0
  end.

(** ** The world outside the tracer *)

Record Platform := {
  (** the state of the allocator next in load order *)
  Heap : Type;
  sys_malloc : Z -> Heap -> Z * Heap;
  sys_free : Z -> Heap -> Heap;
  sys_realloc : Z -> Z -> Heap -> Z * Heap;
  sys_calloc : Z -> Z -> Heap -> Z * Heap;
  (** [sys_posix_memalign old alignment size]: the return code and the
      content of [*memptr] afterwards, [old] being its content before *)
  sys_posix_memalign : Z -> Z -> Z -> Heap -> (Z * Z) * Heap;
  sys_valloc : Z -> Heap -> Z * Heap;
  sys_aligned_alloc : Z -> Z -> Heap -> Z * Heap;
  (** whether [dlsym(RTLD_NEXT, name)] finds the symbol *)
  dlsym_next : string -> bool;
  getenv : string -> option string;
  getpid : Z;
  (** whether the operating system grants [fopen path mode] *)
  fopen_granted : string -> string -> bool;
  (** the address of the static buffer of [dummy_calloc] *)
  dummy_buf : Z
}.

(** ** Data of the tracer *)

Record IPCacheEntry := {
  id : Z;
  skip : bool;
  stop : bool
}.

(** A [FILE] opened by the tracer: the path and mode given to [fopen]
    and the chunks written through the stream so far. *)
Record FILE := {
  f_path : string;
  f_mode : string;
  f_written : list string
}.

Record ThreadData := {
  ipCache : gmap Z IPCacheEntry;
  thread_id : Z;
  out : FILE
}.

(** What the first character of an [fopen] mode asks for. *)
Inductive open_kind := open_read | open_truncate | open_append.

(** glibc reads the first character of the mode ([r], [w] or [a],
    anything else is [EINVAL]) and ignores the characters after it
    that it does not know. *)
Definition mode_kind (mode : string) : option open_kind :=
  match mode with
  | String c _ =>
      if Ascii.eqb c "r" then Some open_read
      else if Ascii.eqb c "w" then Some open_truncate
      else if Ascii.eqb c "a" then Some open_append
      else None
  | EmptyString => None
  end.

(** The content of the file behind a stream, [before] being its
    content when [fopen] ran: only a stream opened for append keeps
    it. *)
Definition file_content (before : string) (f : FILE) : string :=
  match mode_kind (f_mode f) with
  | Some open_append => before +:+ String.concat "" (f_written f)
  | _ => String.concat "" (f_written f)
  end.

(** One more chunk written to a stream. *)
Definition fputs (chunk : string) (f : FILE) : FILE :=
  {| f_path := f_path f; f_mode := f_mode f;
     f_written := f_written f ++ [chunk] |}.

Definition with_out (f : FILE) (td : ThreadData) : ThreadData :=
  {| ipCache := ipCache td; thread_id := thread_id td; out := f |}.

Definition with_ipCache (m : gmap Z IPCacheEntry) (td : ThreadData) : ThreadData :=
  {| ipCache := m; thread_id := thread_id td; out := out td |}.

(** The value of [real_calloc]: null, [&dummy_calloc] while [init]
    runs, or the address [dlsym] returned. *)
Inductive calloc_ptr := calloc_null | calloc_dummy | calloc_next.

(** The seven [real_*] pointers.  For all but [real_calloc], [true]
    stands for the address [dlsym(RTLD_NEXT, name)] returned and
    [false] for [nullptr]. *)
Record Bootstrap := {
  real_malloc : bool;
  real_free : bool;
  real_realloc : bool;
  real_calloc : calloc_ptr;
  real_posix_memalign : bool;
  real_valloc : bool;
  real_aligned_alloc : bool
}.

(** One frame as libunwind reports it: the instruction pointer
    ([unw_get_reg]), and the 256-byte name buffer and the offset after
    [unw_get_proc_name] ran on a buffer whose first byte was NUL. *)
Record Frame := {
  ip : Z;
  name : string;
  offset : Z
}.

(** How stepping ends once the frames are used up: [unw_step] returns
    0 at the outermost frame and a negative code on an error. *)
Inductive unw_end := unw_bottom | unw_error (e : positive).

Definition unw_end_code (e : unw_end) : Z :=
  match e with
  | unw_bottom => 0
  | unw_error n => Z.neg n
  end.

(** A cursor: the frames [unw_step] will still move to, innermost
    first, and the way stepping ends after them.  The cursor
    [unw_init_local] builds in [print_caller] has the frames of the
    callers of [print_caller]. *)
Record Cursor := {
  frames : list Frame;
  ending : unw_end
}.

(** [unw_step]: a positive code and the frame moved to, or the ending
    code. *)
Definition unw_step (c : Cursor) : Z * option Frame * Cursor :=
  match frames c with
  | [] => (unw_end_code (ending c), None, c)
  | f :: outer => (1, Some f, {| frames := outer; ending := ending c |})
  end.

Section Tracer.

Context (P : Platform).

(** ** Process state and the monad of the embedding *)

Record State := {
  boot : Bootstrap;
  next_cache_id : Z;
  next_thread_id : Z;
  in_handler : bool;
  (** [None] until the thread-local [threadData] is constructed *)
  threadData : option ThreadData;
  (** the static [offset] of [dummy_calloc] *)
  dummy_offset : Z;
  heap : Heap P;
  stderr : list string
}.

Inductive Outcome (A : Type) :=
| Returned (a : A) (st : State)
| Exited (code : Z) (st : State)
| Faulted (st : State).

Arguments Returned {A} a st.
Arguments Exited {A} code st.
Arguments Faulted {A} st.

Definition M (A : Type) : Type := State -> Outcome A.

Definition ret {A} (a : A) : M A := fun st => Returned a st.

Definition bind {A B} (m : M A) (k : A -> M B) : M B :=
  fun st =>
    match m st with
    | Returned a st' => k a st'
    | Exited code st' => Exited code st'
    | Faulted st' => Faulted st'
    end.

Notation "x <- m ;; k" := (bind m (fun x => k))
  (at level 100, m at next level, right associativity).
Notation "m ;; k" := (bind m (fun _ => k))
  (at level 100, right associativity).

Definition gets {A} (f : State -> A) : M A := fun st => Returned (f st) st.
Definition modify (f : State -> State) : M unit := fun st => Returned tt (f st).
Definition exit {A} (code : Z) : M A := fun st => Exited code st.

Definition set_boot (b : Bootstrap) (st : State) : State :=
  {| boot := b; next_cache_id := next_cache_id st;
     next_thread_id := next_thread_id st; in_handler := in_handler st;
     threadData := threadData st; dummy_offset := dummy_offset st;
     heap := heap st; stderr := stderr st |}.

Definition set_next_cache_id (n : Z) (st : State) : State :=
  {| boot := boot st; next_cache_id := n;
     next_thread_id := next_thread_id st; in_handler := in_handler st;
     threadData := threadData st; dummy_offset := dummy_offset st;
     heap := heap st; stderr := stderr st |}.

Definition set_next_thread_id (n : Z) (st : State) : State :=
  {| boot := boot st; next_cache_id := next_cache_id st;
     next_thread_id := n; in_handler := in_handler st;
     threadData := threadData st; dummy_offset := dummy_offset st;
     heap := heap st; stderr := stderr st |}.

Definition set_in_handler (b : bool) (st : State) : State :=
  {| boot := boot st; next_cache_id := next_cache_id st;
     next_thread_id := next_thread_id st; in_handler := b;
     threadData := threadData st; dummy_offset := dummy_offset st;
     heap := heap st; stderr := stderr st |}.

Definition set_threadData (td : option ThreadData) (st : State) : State :=
  {| boot := boot st; next_cache_id := next_cache_id st;
     next_thread_id := next_thread_id st; in_handler := in_handler st;
     threadData := td; dummy_offset := dummy_offset st;
     heap := heap st; stderr := stderr st |}.

Definition set_dummy_offset (n : Z) (st : State) : State :=
  {| boot := boot st; next_cache_id := next_cache_id st;
     next_thread_id := next_thread_id st; in_handler := in_handler st;
     threadData := threadData st; dummy_offset := n;
     heap := heap st; stderr := stderr st |}.

Definition set_heap (h : Heap P) (st : State) : State :=
  {| boot := boot st; next_cache_id := next_cache_id st;
     next_thread_id := next_thread_id st; in_handler := in_handler st;
     threadData := threadData st; dummy_offset := dummy_offset st;
     heap := h; stderr := stderr st |}.

(** [fprintf(stderr, ...)] *)
Definition eprintf (chunk : string) : M unit :=
  modify (fun st =>
    {| boot := boot st; next_cache_id := next_cache_id st;
       next_thread_id := next_thread_id st; in_handler := in_handler st;
       threadData := threadData st; dummy_offset := dummy_offset st;
       heap := heap st; stderr := stderr st ++ [chunk] |}).

(** ** [env], [fopen] and the thread session *)

Definition env (variable : string) : string :=
  match getenv P variable with
  | Some value => value
  | None => ""
  end.

(** [fopen]: a null pointer for a mode glibc rejects or an open the
    operating system refuses; otherwise a stream with nothing written
    through it yet. *)
Definition fopen (path mode : string) : option FILE :=
  match mode_kind mode with
  | Some _ =>
      if fopen_granted P path mode
      then Some {| f_path := path; f_mode := mode; f_written := [] |}
      else None
  | None => None
  end.

(** The constructor of [ThreadData]. *)
Definition ThreadData_ctor : M ThreadData :=
  tid <- gets next_thread_id;;
  modify (set_next_thread_id (wrap64 (tid + 1)));;
  wasInHandler <- gets in_handler;;
  modify (set_in_handler true);;
  (* ipCache.reserve(1024) leaves the map empty *)
  let outputFileName :=
    env "DUMP_MALLOC_TRACE_OUTPUT" +:+ to_string_int (getpid P)
      +:+ "." +:+ to_string_ulong tid in
  match fopen outputFileName "wa" with
  | None =>
      eprintf ("Failed to open output file: " +:+ outputFileName +:+ newline);;
      exit 1
  | Some f =>
      modify (set_in_handler wasInHandler);;
      ret {| ipCache := ∅; thread_id := tid; out := f |}
  end.

(** A use of the thread-local [threadData]: the first one in a thread
    runs the constructor. *)
Definition the_threadData : M ThreadData :=
  cur <- gets threadData;;
  match cur with
  | Some td => ret td
  | None =>
      td <- ThreadData_ctor;;
      modify (set_threadData (Some td));;
      ret td
  end.

(** [fprintf(threadData.out, ...)] *)
Definition fprintf_out (chunk : string) : M unit :=
  td <- the_threadData;;
  modify (set_threadData (Some (with_out (fputs chunk (out td)) td))).

(** ** [print_caller] *)

(** The test for [operator new] ([_Znwm]) and [operator new[]]
    ([_Znam]), character by character and in the order of the source. *)
Definition is_operator_new (name : string) : bool :=
  (Ascii.eqb (char_at name 0) "_" && Ascii.eqb (char_at name 1) "Z"
   && Ascii.eqb (char_at name 2) "n"
   && Ascii.eqb (char_at name 4) "m" && Ascii.eqb (char_at name 5) NUL
   && (Ascii.eqb (char_at name 3) "w" || Ascii.eqb (char_at name 3) "a"))%bool.

Definition is_entry_point (name : string) : bool :=
  ((strcmp name "main" =? 0) || (strcmp name "_GLOBAL__sub_I_main" =? 0))%bool.

(** [unordered_map::insert]: a key already present keeps its value. *)
Definition cache_insert (k : Z) (e : IPCacheEntry) (m : gmap Z IPCacheEntry)
  : gmap Z IPCacheEntry :=
  match m !! k with
  | Some _ => m
  | None => <[k := e]> m
  end.

Definition definition_record (e : IPCacheEntry) (f : Frame) : string :=
  fmt_lu (id e) +:+ "=" +:+ fmt_lx (ip f) +:+ "@" +:+ cstr (name f)
    +:+ "+0x" +:+ fmt_lx (offset f) +:+ ";".

Definition reference_record (e : IPCacheEntry) : string :=
  fmt_lu (id e) +:+ ";".

(** The body of the [while] loop for the frame the cursor moved to;
    the result tells whether the body ran into a [break]. *)
Definition visit_frame (f : Frame) : M bool :=
  td <- the_threadData;;
  match ipCache td !! ip f with
  | None =>
      (* not cached yet, get data *)
      let skip := is_operator_new (name f) in
      let stop := (negb skip && is_entry_point (name f))%bool in
      id <- gets next_cache_id;;
      modify (set_next_cache_id (wrap64 (id + 1)));;
      let e := {| id := id; skip := skip; stop := stop |} in
      modify (set_threadData
                (Some (with_ipCache (cache_insert (ip f) e (ipCache td)) td)));;
      (if skip then ret tt else fprintf_out (definition_record e f));;
      ret stop
  | Some frame =>
      (if skip frame then ret tt else fprintf_out (reference_record frame));;
      ret (stop frame)
  end.

(** The [while] loop: every frame of the list is one [unw_step] that
    returned a positive code, the end of the list is the [unw_step]
    that did not. *)
Fixpoint unwind_loop (fs : list Frame) : M unit :=
  match fs with
  | [] => ret tt
  | f :: outer =>
      stopped <- visit_frame f;;
      if stopped then ret tt else unwind_loop outer
  end.

(** The [for] loop that steps over [handleMalloc] and [malloc]; [None]
    is the early [return]. *)
Fixpoint skip_frames (n : nat) (c : Cursor) : option Cursor :=
  match n with
  | O => Some c
  | S n' =>
      let '(rc, _, c') := unw_step c in
      if rc <=? 0 then None else skip_frames n' c'
  end.

Definition print_caller (c : Cursor) : M unit :=
  match skip_frames 2 c with
  | None => ret tt
  | Some c' =>
      the_threadData;;
      unwind_loop (frames c')
  end.

(** ** Bootstrap *)

Definition findReal (symbol : string) : M unit :=
  if dlsym_next P symbol then ret tt
  else
    eprintf ("could not find original function " +:+ symbol +:+ newline);;
    exit 1.

Definition MAX_SIZE : Z := 1024.

(** [dummy_calloc]: [buf] is an array of [char*], so [buf + oldOffset]
    lies [8 * oldOffset] bytes after its start. *)
Definition dummy_calloc (num size : Z) : M Z :=
  oldOffset <- gets dummy_offset;;
  let offset := wrap64 (oldOffset + wrap64 (num * size)) in
  modify (set_dummy_offset offset);;
  if offset >=? MAX_SIZE then
    eprintf ("failed to initialize, dummy calloc buf size exhausted: "
             +:+ fmt_lu offset +:+ " requested, " +:+ fmt_lu MAX_SIZE
             +:+ " available" +:+ newline);;
    exit 1
  else ret (wrap64 (dummy_buf P + 8 * oldOffset)).

Definition with_real_malloc (v : bool) (b : Bootstrap) : Bootstrap :=
  {| real_malloc := v; real_free := real_free b; real_realloc := real_realloc b;
     real_calloc := real_calloc b; real_posix_memalign := real_posix_memalign b;
     real_valloc := real_valloc b; real_aligned_alloc := real_aligned_alloc b |}.

Definition with_real_free (v : bool) (b : Bootstrap) : Bootstrap :=
  {| real_malloc := real_malloc b; real_free := v; real_realloc := real_realloc b;
     real_calloc := real_calloc b; real_posix_memalign := real_posix_memalign b;
     real_valloc := real_valloc b; real_aligned_alloc := real_aligned_alloc b |}.

Definition with_real_realloc (v : bool) (b : Bootstrap) : Bootstrap :=
  {| real_malloc := real_malloc b; real_free := real_free b; real_realloc := v;
     real_calloc := real_calloc b; real_posix_memalign := real_posix_memalign b;
     real_valloc := real_valloc b; real_aligned_alloc := real_aligned_alloc b |}.

Definition with_real_calloc (v : calloc_ptr) (b : Bootstrap) : Bootstrap :=
  {| real_malloc := real_malloc b; real_free := real_free b;
     real_realloc := real_realloc b;
     real_calloc := v; real_posix_memalign := real_posix_memalign b;
     real_valloc := real_valloc b; real_aligned_alloc := real_aligned_alloc b |}.

Definition with_real_posix_memalign (v : bool) (b : Bootstrap) : Bootstrap :=
  {| real_malloc := real_malloc b; real_free := real_free b;
     real_realloc := real_realloc b;
     real_calloc := real_calloc b; real_posix_memalign := v;
     real_valloc := real_valloc b; real_aligned_alloc := real_aligned_alloc b |}.

Definition with_real_valloc (v : bool) (b : Bootstrap) : Bootstrap :=
  {| real_malloc := real_malloc b; real_free := real_free b;
     real_realloc := real_realloc b;
     real_calloc := real_calloc b; real_posix_memalign := real_posix_memalign b;
     real_valloc := v; real_aligned_alloc := real_aligned_alloc b |}.

Definition with_real_aligned_alloc (v : bool) (b : Bootstrap) : Bootstrap :=
  {| real_malloc := real_malloc b; real_free := real_free b;
     real_realloc := real_realloc b;
     real_calloc := real_calloc b; real_posix_memalign := real_posix_memalign b;
     real_valloc := real_valloc b; real_aligned_alloc := v |}.

Definition assign (f : Bootstrap -> Bootstrap) : M unit :=
  modify (fun st => set_boot (f (boot st)) st).

Definition init : M unit :=
  busy <- gets in_handler;;
  if busy then
    eprintf ("initialization recursion detected" +:+ newline);;
    exit 1
  else
    modify (set_in_handler true);;
    assign (with_real_calloc calloc_dummy);;
    findReal "calloc";; assign (with_real_calloc calloc_next);;
    findReal "malloc";; assign (with_real_malloc true);;
    findReal "free";; assign (with_real_free true);;
    findReal "realloc";; assign (with_real_realloc true);;
    findReal "posix_memalign";; assign (with_real_posix_memalign true);;
    findReal "valloc";; assign (with_real_valloc true);;
    findReal "aligned_alloc";; assign (with_real_aligned_alloc true);;
    modify (set_in_handler false).

(** ** The two handlers *)

Definition handleMalloc (c : Cursor) (ptr size : Z) : M unit :=
  fprintf_out ("+" +:+ fmt_ld size +:+ ":" +:+ fmt_p ptr +:+ " ");;
  print_caller c;;
  fprintf_out newline.

Definition handleFree (ptr : Z) : M unit :=
  fprintf_out ("-" +:+ fmt_p ptr +:+ newline).

(** ** Calls through the [real_*] pointers

    A call through a pointer that is still null is a fault of the
    process. *)

Definition call_real_malloc (size : Z) : M Z := fun st =>
  if real_malloc (boot st)
  then let '(r, h) := sys_malloc P size (heap st) in Returned r (set_heap h st)
  else Faulted st.

Definition call_real_free (ptr : Z) : M unit := fun st =>
  if real_free (boot st)
  then Returned tt (set_heap (sys_free P ptr (heap st)) st)
  else Faulted st.

Definition call_real_realloc (ptr size : Z) : M Z := fun st =>
  if real_realloc (boot st)
  then let '(r, h) := sys_realloc P ptr size (heap st) in Returned r (set_heap h st)
  else Faulted st.

Definition call_real_calloc (num size : Z) : M Z := fun st =>
  match real_calloc (boot st) with
  | calloc_null => Faulted st
  | calloc_dummy => dummy_calloc num size st
  | calloc_next =>
      let '(r, h) := sys_calloc P num size (heap st) in Returned r (set_heap h st)
  end.

Definition call_real_posix_memalign (cell alignment size : Z) : M (Z * Z) := fun st =>
  if real_posix_memalign (boot st)
  then let '(r, h) := sys_posix_memalign P cell alignment size (heap st) in
       Returned r (set_heap h st)
  else Faulted st.

Definition call_real_valloc (size : Z) : M Z := fun st =>
  if real_valloc (boot st)
  then let '(r, h) := sys_valloc P size (heap st) in Returned r (set_heap h st)
  else Faulted st.

Definition call_real_aligned_alloc (alignment size : Z) : M Z := fun st =>
  if real_aligned_alloc (boot st)
  then let '(r, h) := sys_aligned_alloc P alignment size (heap st) in
       Returned r (set_heap h st)
  else Faulted st.

(** ** The interception entry points

    The cursor [c] of an allocating entry point is the one
    [print_caller] would build if the call is traced.  The [void**] of
    [posix_memalign] is carried by value: [cell] is the content of
    [*memptr] at the call, and the second component of the result is
    its content at the return. *)

Definition malloc (c : Cursor) (size : Z) : M Z :=
  known <- gets (fun st => real_malloc (boot st));;
  (if known then ret tt else init);;
  r <- call_real_malloc size;;
  busy <- gets in_handler;;
  (if busy then ret tt
   else
     modify (set_in_handler true);;
     handleMalloc c r size;;
     modify (set_in_handler false));;
  ret r.

Definition free (ptr : Z) : M unit :=
  known <- gets (fun st => real_free (boot st));;
  (if known then ret tt else init);;
  call_real_free ptr;;
  busy <- gets in_handler;;
  if busy then ret tt
  else
    modify (set_in_handler true);;
    handleFree ptr;;
    modify (set_in_handler false).

Definition realloc (c : Cursor) (ptr size : Z) : M Z :=
  known <- gets (fun st => real_realloc (boot st));;
  (if known then ret tt else init);;
  r <- call_real_realloc ptr size;;
  busy <- gets in_handler;;
  (if busy then ret tt
   else
     modify (set_in_handler true);;
     handleFree ptr;;
     handleMalloc c r size;;
     modify (set_in_handler false));;
  ret r.

Definition calloc (c : Cursor) (num size : Z) : M Z :=
  known <- gets (fun st => real_calloc (boot st));;
  (match known with calloc_null => init | _ => ret tt end);;
  r <- call_real_calloc num size;;
  busy <- gets in_handler;;
  (if busy then ret tt
   else
     modify (set_in_handler true);;
     handleMalloc c r (wrap64 (num * size));;
     modify (set_in_handler false));;
  ret r.

Definition posix_memalign (c : Cursor) (cell alignment size : Z) : M (Z * Z) :=
  known <- gets (fun st => real_posix_memalign (boot st));;
  (if known then ret tt else init);;
  r <- call_real_posix_memalign cell alignment size;;
  busy <- gets in_handler;;
  (if busy then ret tt
   else
     modify (set_in_handler true);;
     handleMalloc c (snd r) size;;
     modify (set_in_handler false));;
  ret r.

Definition aligned_alloc (c : Cursor) (alignment size : Z) : M Z :=
  known <- gets (fun st => real_aligned_alloc (boot st));;
  (if known then ret tt else init);;
  r <- call_real_aligned_alloc alignment size;;
  busy <- gets in_handler;;
  (if busy then ret tt
   else
     modify (set_in_handler true);;
     handleMalloc c r size;;
     modify (set_in_handler false));;
  ret r.

Definition valloc (c : Cursor) (size : Z) : M Z :=
  known <- gets (fun st => real_valloc (boot st));;
  (if known then ret tt else init);;
  r <- call_real_valloc size;;
  busy <- gets in_handler;;
  (if busy then ret tt
   else
     modify (set_in_handler true);;
     handleMalloc c r size;;
     modify (set_in_handler false));;
  ret r.

(** ** The end of a thread *)

(** [fclose]: the stream is flushed and closed.  The chunks written
    through it are what it leaves in the file, and the state keeps
    them as they are. *)
Definition fclose (f : FILE) : M unit := ret tt.

(** The destructor of [ThreadData]. *)
Definition ThreadData_dtor (td : ThreadData) : M unit :=
  modify (set_in_handler true);;
  fclose (out td).

(** The exit of the thread: the destructor runs for a [threadData]
    that was constructed, and only for it. *)
Definition thread_exit : M unit :=
  cur <- gets threadData;;
  match cur with
  | Some td => ThreadData_dtor td
  | None => ret tt
  end.

End Tracer.

Arguments Returned {P A} a st.
Arguments Exited {P A} code st.
Arguments Faulted {P A} st.
Arguments boot {P} _.
Arguments next_cache_id {P} _.
Arguments next_thread_id {P} _.
Arguments in_handler {P} _.
Arguments threadData {P} _.
Arguments dummy_offset {P} _.
Arguments heap {P} _.
Arguments stderr {P} _.
Arguments ret {P A} a st.
Arguments bind {P A B} m k st.

Notation "x <- m ;; k" := (bind m (fun x => k))
  (at level 100, m at next level, right associativity).
Notation "m ;; k" := (bind m (fun _ => k))
  (at level 100, right associativity).

(** ** Vocabulary of the statements *)

(** The chunks written so far to the output file of the thread. *)
Definition written {P} (st : State P) : list string :=
  match threadData st with
  | Some td => f_written (out td)
  | None => []
  end.

Definition cache_of {P} (st : State P) : gmap Z IPCacheEntry :=
  match threadData st with
  | Some td => ipCache td
  | None => ∅
  end.

(** The text of a sequence of chunks. *)
Definition text (chunks : list string) : string := String.concat "" chunks.

(** The entry the loop body builds for a frame that is not cached,
    [n] being the value it draws from [next_cache_id]. *)
Definition classify (n : Z) (f : Frame) : IPCacheEntry :=
  {| id := n;
     skip := is_operator_new (name f);
     stop := negb (is_operator_new (name f)) && is_entry_point (name f) |}.

(** One run of the loop body: the frame, the cache entry used for it,
    and whether that entry came from the cache. *)
Record Visit := {
  seen : Frame;
  entry : IPCacheEntry;
  cached : bool
}.

(** What a visit writes to the output file. *)
Definition emitted (v : Visit) : list string :=
  if skip (entry v) then []
  else if cached v then [reference_record (entry v)]
       else [definition_record (entry v) (seen v)].

(** The visits of a walk over [fs] that starts with cache [m] and
    counter [n]. *)
Fixpoint trace (m : gmap Z IPCacheEntry) (n : Z) (fs : list Frame) : list Visit :=
  match fs with
  | [] => []
  | f :: outer =>
      match m !! ip f with
      | Some e =>
          {| seen := f; entry := e; cached := true |}
            :: (if stop e then [] else trace m n outer)
      | None =>
          let e := classify n f in
          {| seen := f; entry := e; cached := false |}
            :: (if stop e then []
                else trace (<[ip f := e]> m) (wrap64 (n + 1)) outer)
      end
  end.

Definition cache_after (m : gmap Z IPCacheEntry) (tr : list Visit)
  : gmap Z IPCacheEntry :=
  fold_left (fun acc v => cache_insert (ip (seen v)) (entry v) acc) tr m.

Definition counter_after (n : Z) (tr : list Visit) : Z :=
  fold_left (fun acc v => if cached v then acc else wrap64 (acc + 1)) tr n.

(** [st'] is [st] after a stretch of the handler that only touched the
    thread session and the frame counter: the cache became [m'], the
    counter [n'], and [chunks] were written. *)
Definition evolves {P} (st st' : State P) (m' : gmap Z IPCacheEntry) (n' : Z)
    (chunks : list string) : Prop :=
  exists td td',
    threadData st = Some td /\ threadData st' = Some td' /\
    ipCache td' = m' /\ thread_id td' = thread_id td /\
    f_path (out td') = f_path (out td) /\ f_mode (out td') = f_mode (out td) /\
    f_written (out td') = (f_written (out td) ++ chunks)%list /\
    next_cache_id st' = n' /\ boot st' = boot st /\
    next_thread_id st' = next_thread_id st /\ in_handler st' = in_handler st /\
    dummy_offset st' = dummy_offset st /\ heap st' = heap st /\
    stderr st' = stderr st.

(** The visit the loop body makes of [f] from cache [m] and counter [n]. *)
Definition visit_of (m : gmap Z IPCacheEntry) (n : Z) (f : Frame) : Visit :=
  match m !! ip f with
  | Some e => {| seen := f; entry := e; cached := true |}
  | None => {| seen := f; entry := classify n f; cached := false |}
  end.

(** *** Calls and what the next allocator alone answers *)

Inductive Call :=
| call_malloc (size : Z)
| call_free (ptr : Z)
| call_realloc (ptr size : Z)
| call_calloc (num size : Z)
| call_posix_memalign (cell alignment size : Z)
| call_aligned_alloc (alignment size : Z)
| call_valloc (size : Z).

Inductive Result :=
| res_ptr (p : Z)
| res_void
| res_code (rc cell : Z).

(** A call of an interception entry point. *)
Definition run_call (P : Platform) (c : Cursor) (call : Call) : M P Result :=
  match call with
  | call_malloc size => r <- malloc P c size;; ret (res_ptr r)
  | call_free ptr => free P ptr;; ret res_void
  | call_realloc ptr size => r <- realloc P c ptr size;; ret (res_ptr r)
  | call_calloc num size => r <- calloc P c num size;; ret (res_ptr r)
  | call_posix_memalign cell alignment size =>
      r <- posix_memalign P c cell alignment size;; ret (res_code (fst r) (snd r))
  | call_aligned_alloc alignment size =>
      r <- aligned_alloc P c alignment size;; ret (res_ptr r)
  | call_valloc size => r <- valloc P c size;; ret (res_ptr r)
  end.

(** The same call answered by the next allocator in load order, with
    no tracer in between. *)
Definition true_call (P : Platform) (call : Call) (h : Heap P) : Result * Heap P :=
  match call with
  | call_malloc size => let '(r, h') := sys_malloc P size h in (res_ptr r, h')
  | call_free ptr => (res_void, sys_free P ptr h)
  | call_realloc ptr size =>
      let '(r, h') := sys_realloc P ptr size h in (res_ptr r, h')
  | call_calloc num size =>
      let '(r, h') := sys_calloc P num size h in (res_ptr r, h')
  | call_posix_memalign cell alignment size =>
      let '(r, h') := sys_posix_memalign P cell alignment size h in
      (res_code (fst r) (snd r), h')
  | call_aligned_alloc alignment size =>
      let '(r, h') := sys_aligned_alloc P alignment size h in (res_ptr r, h')
  | call_valloc size => let '(r, h') := sys_valloc P size h in (res_ptr r, h')
  end.

(** *** Bootstrap *)

Definition booted : Bootstrap :=
  {| real_malloc := true; real_free := true; real_realloc := true;
     real_calloc := calloc_next; real_posix_memalign := true;
     real_valloc := true; real_aligned_alloc := true |}.

(** Whether the entry point finds its [real_*] pointer set to the
    address [dlsym] returned. *)
Definition known (call : Call) (b : Bootstrap) : bool :=
  match call with
  | call_malloc _ => real_malloc b
  | call_free _ => real_free b
  | call_realloc _ _ => real_realloc b
  | call_calloc _ _ =>
      match real_calloc b with calloc_next => true | _ => false end
  | call_posix_memalign _ _ _ => real_posix_memalign b
  | call_aligned_alloc _ _ => real_aligned_alloc b
  | call_valloc _ => real_valloc b
  end.

(** Whether the entry point finds its [real_*] pointer null. *)
Definition unset (call : Call) (b : Bootstrap) : bool :=
  match call with
  | call_calloc _ _ =>
      match real_calloc b with calloc_null => true | _ => false end
  | _ => negb (known call b)
  end.

(** Whether a [calloc] finds [real_calloc] set to [&dummy_calloc], as
    it is while [init] looks the symbols up. *)
Definition stand_in (call : Call) (b : Bootstrap) : bool :=
  match call with
  | call_calloc _ _ =>
      match real_calloc b with calloc_dummy => true | _ => false end
  | _ => false
  end.

Definition symbols_found (P : Platform) : bool :=
  dlsym_next P "calloc" && dlsym_next P "malloc" && dlsym_next P "free"
  && dlsym_next P "realloc" && dlsym_next P "posix_memalign"
  && dlsym_next P "valloc" && dlsym_next P "aligned_alloc".

(** The first step of an entry point goes through: its pointer is
    resolved already, or it is null and [init] can run to its end.
    This leaves out the calls made from inside [init]. *)
Definition bootstraps {P} (call : Call) (st : State P) : Prop :=
  known call (boot st) = true \/
  (unset call (boot st) = true /\ in_handler st = false /\ symbols_found P = true).

(** [st] after the first step of an entry point that goes through. *)
Definition after_boot {P} (call : Call) (st : State P) : State P :=
  if known call (boot st) then st
  else set_in_handler P false (set_boot P booted st).

(** *** The thread session *)

Definition session_path {P} (st : State P) : string :=
  env P "DUMP_MALLOC_TRACE_OUTPUT" +:+ to_string_int (getpid P)
    +:+ "." +:+ to_string_ulong (next_thread_id st).

(** The thread has its session, or its constructor will be granted
    the output file. *)
Definition session_ready {P} (st : State P) : bool :=
  match threadData st with
  | Some _ => true
  | None => fopen_granted P (session_path st) "wa"
  end.

(** The session the constructor of [ThreadData] builds in [st]. *)
Definition fresh_session {P} (st : State P) : ThreadData :=
  {| ipCache := ∅; thread_id := next_thread_id st;
     out := {| f_path := session_path st; f_mode := "wa"; f_written := [] |} |}.

(** [st] once the thread has its session. *)
Definition opened {P} (st : State P) : State P :=
  match threadData st with
  | Some _ => st
  | None =>
      set_threadData P (Some (fresh_session st))
        (set_in_handler P (in_handler st)
           (set_in_handler P true
              (set_next_thread_id P (wrap64 (next_thread_id st + 1)) st)))
  end.

(** *** Records of the output file *)

Definition alloc_header (ptr size : Z) : string :=
  "+" +:+ fmt_ld size +:+ ":" +:+ fmt_p ptr +:+ " ".

(** The chunks of an allocation record whose reference chain is
    [elems]. *)
Definition alloc_record (ptr size : Z) (elems : list string) : list string :=
  (alloc_header ptr size :: elems ++ [newline])%list.

Definition free_record (ptr : Z) : list string :=
  ["-" +:+ fmt_p ptr +:+ newline].

(** The frames the [while] loop of [print_caller] can reach: all but
    the two innermost. *)
Definition walked (c : Cursor) : list Frame := drop 2 (frames c).

(** The visits of the walk a traced call makes. *)
Definition walk_of (c : Cursor) (call : Call) (m : gmap Z IPCacheEntry) (n : Z)
  : list Visit :=
  match call with
  | call_free _ => []
  | _ => trace m n (walked c)
  end.

(** What a traced call with result [res] writes, from cache [m] and
    counter [n]. *)
Definition recorded (c : Cursor) (call : Call) (res : Result)
    (m : gmap Z IPCacheEntry) (n : Z) : list string :=
  let elems := flat_map emitted (trace m n (walked c)) in
  match call, res with
  | call_malloc size, res_ptr r => alloc_record r size elems
  | call_free ptr, _ => free_record ptr
  | call_realloc ptr size, res_ptr r =>
      (free_record ptr ++ alloc_record r size elems)%list
  | call_calloc num size, res_ptr r => alloc_record r (wrap64 (num * size)) elems
  | call_posix_memalign _ _ size, res_code _ cell => alloc_record cell size elems
  | call_aligned_alloc _ size, res_ptr r => alloc_record r size elems
  | call_valloc size, res_ptr r => alloc_record r size elems
  | _, _ => []
  end.

(** [st'] is [st] after a traced stretch: the guard is released,
    [chunks] were written to the output file, the cache became [m'] and
    the counter [n']; nothing else changed. *)
Definition traced_to {P} (st st' : State P) (chunks : list string)
    (m' : gmap Z IPCacheEntry) (n' : Z) : Prop :=
  in_handler st' = false /\
  written st' = (written st ++ chunks)%list /\
  cache_of st' = m' /\ next_cache_id st' = n' /\
  is_Some (threadData st') /\
  boot st' = boot st /\ heap st' = heap st /\ stderr st' = stderr st /\
  dummy_offset st' = dummy_offset st.

(** The handlers a traced call runs between the two assignments to
    [in_handler]. *)
Definition handler_of (P : Platform) (c : Cursor) (call : Call) (res : Result)
  : M P unit :=
  match call, res with
  | call_malloc size, res_ptr r => handleMalloc P c r size
  | call_free ptr, _ => handleFree P ptr
  | call_realloc ptr size, res_ptr r =>
      handleFree P ptr;; handleMalloc P c r size
  | call_calloc num size, res_ptr r => handleMalloc P c r (wrap64 (num * size))
  | call_posix_memalign _ _ size, res_code _ cell => handleMalloc P c cell size
  | call_aligned_alloc _ size, res_ptr r => handleMalloc P c r size
  | call_valloc size, res_ptr r => handleMalloc P c r size
  | _, _ => ret tt
  end.

(** A chunk is an element of a reference chain. *)
Definition chain_element (chunk : string) : Prop :=
  exists e f, chunk = definition_record e f \/ chunk = reference_record e.

(** What a handler does: it is refused with the output file, and with
    a session it returns after the effect [eff] on the cache, the
    counter and the output file. *)
Definition handler_does (P : Platform) (h : M P unit)
    (eff : gmap Z IPCacheEntry -> Z -> gmap Z IPCacheEntry * Z * list string)
  : Prop :=
  (forall s, session_ready s = true -> h s = h (opened s)) /\
  (forall s, session_ready s = false -> exists s', h s = Exited 1 s') /\
  (forall s td, threadData s = Some td ->
     exists s', h s = Returned tt s' /\
       evolves s s' (eff (ipCache td) (next_cache_id s)).1.1
               (eff (ipCache td) (next_cache_id s)).1.2
               (eff (ipCache td) (next_cache_id s)).2).

(** *** Events *)




(** What a computation appends to the output file of the thread: the
    chunks written past those of [st]. *)
Definition appended {P A} (m : M P A) (st : State P) : list string :=
  match m st with
  | Returned _ st' => drop (length (written st)) (written st')
  | _ => []
  end.

(** The state a computation ends in. *)
Definition after {P A} (m : M P A) (st : State P) : State P :=
  match m st with
  | Returned _ st' => st'
  | Exited _ st' => st'
  | Faulted st' => st'
  end.

(** The value a computation returned, if it did. *)
Definition returned {P A} (o : Outcome P A) : option A :=
  match o with
  | Returned a _ => Some a
  | _ => None
  end.

(** The status a computation ended the process with, if it did. *)
Definition exit_status {P A} (o : Outcome P A) : option Z :=
  match o with
  | Exited code _ => Some code
  | _ => None
  end.

(** The allocation record with the separators the specification
    names and no others: the reference chain right after the pointer. *)
Definition alloc_text_as_specified (ptr size : Z) (elems : list string) : string :=
  "+" +:+ fmt_ld size +:+ ":" +:+ fmt_p ptr +:+ text elems +:+ newline.

(** ** A small platform to run the tracer on

    A bump allocator whose [realloc] resizes in place and whose
    [posix_memalign] refuses more than a page with [ENOMEM], leaving
    [*memptr] as it was. *)

Definition toy : Platform :=
  {| Heap := Z;
     sys_malloc := fun size h => (h, h + size);
     sys_free := fun _ h => h;
     sys_realloc := fun ptr size h => (ptr, h);
     sys_calloc := fun num size h => (h, h + wrap64 (num * size));
     sys_posix_memalign := fun cell alignment size h =>
       if size >? 4096 then ((12, cell), h) else ((0, h), h + size);
     sys_valloc := fun size h => (h, h + size);
     sys_aligned_alloc := fun alignment size h => (h, h + size);
     dlsym_next := fun _ => true;
     getenv := fun variable =>
       if String.eqb variable "DUMP_MALLOC_TRACE_OUTPUT"
       then Some "/tmp/trace." else None;
     getpid := 42;
     fopen_granted := fun path _ => negb (String.eqb path "/tmp/trace.42.7");
     dummy_buf := 4096 |}.

Definition nothing_resolved : Bootstrap :=
  {| real_malloc := false; real_free := false; real_realloc := false;
     real_calloc := calloc_null; real_posix_memalign := false;
     real_valloc := false; real_aligned_alloc := false |}.

(** A thread of a process that has not allocated yet. *)
Definition fresh : State toy :=
  Build_State toy nothing_resolved 0 0 false None 0 8323088 [].

(** The session of a thread in the middle of its run: one frame
    cached, one record written. *)
Definition live_session : ThreadData :=
  {| ipCache := {[ 300 := {| id := 0; skip := false; stop := true |} ]};
     thread_id := 0;
     out := {| f_path := "/tmp/trace.42.0"; f_mode := "wa";
               f_written := ["-0x7f0000" +:+ newline] |} |}.

Definition live : State toy :=
  Build_State toy booted 1 1 false (Some live_session) 0 8323088 [].

(** The same thread while one of its handlers runs. *)
Definition busy : State toy := set_in_handler toy true live.

(** The eighth thread of the process, whose output file is refused. *)
Definition unlucky : State toy :=
  Build_State toy booted 1 7 false None 0 8323088 [].

Definition frame (ip : Z) (name : string) (offset : Z) : Frame :=
  {| ip := ip; name := name; offset := offset |}.

(** The symbols of the program the examples trace. *)
Definition symbols (k : Z) : string :=
  if k =? 150 then "_Znwm"
  else if k =? 200 then "B"
  else if k =? 300 then "main"
  else "__libc_start_main".

(** [main] calls [B], [B] calls [operator new], which calls [malloc]. *)
Definition stack : Cursor :=
  {| frames := [frame 16 "handleMalloc" 9; frame 32 "malloc" 40;
                frame 150 "_Znwm" 24; frame 200 "B" 32; frame 300 "main" 0;
                frame 400 "__libc_start_main" 240];
     ending := unw_bottom |}.

(** [main] calls [B], [B] calls [A], which calls [malloc]. *)
Definition plain_stack : Cursor :=
  {| frames := [frame 16 "handleMalloc" 9; frame 32 "malloc" 40;
                frame 100 "A" 16; frame 200 "B" 32; frame 300 "main" 0;
                frame 400 "__libc_start_main" 240];
     ending := unw_error 8 |}.

(** The calling thread in the middle of [init], between the two
    assignments to [real_calloc]. *)
Definition bootstrapping : State toy :=
  Build_State toy (with_real_calloc calloc_dummy nothing_resolved)
    0 0 true None 0 8323088 [].

(** The cache agrees with a table of symbol names: every entry has
    the flags the loop body computes from the name at its key. *)
Definition built_from (sym : Z -> string) (m : gmap Z IPCacheEntry) : Prop :=
  forall k e, m !! k = Some e ->
    skip e = is_operator_new (sym k) /\ stop e = is_entry_point (sym k).

(** ** Vocabulary of the further properties *)

(** Calls made one after the other by the thread. *)
Fixpoint run_calls (P : Platform) (calls : list (Cursor * Call))
  : M P (list Result) :=
  match calls with
  | [] => ret []
  | (c, call) :: rest =>
      r <- run_call P c call;;
      rs <- run_calls P rest;;
      ret (r :: rs)
  end.

(** The same calls answered by the next allocator alone. *)
Fixpoint true_calls (P : Platform) (calls : list Call) (h : Heap P)
  : list Result * Heap P :=
  match calls with
  | [] => ([], h)
  | call :: rest =>
      let '(r, h1) := true_call P call h in
      let '(rs, h2) := true_calls P rest h1 in
      (r :: rs, h2)
  end.

(** A thread outside the handlers, in a process that is bootstrapped
    or can be, and with an output file it has or will be granted. *)
Definition healthy {P} (st : State P) : Prop :=
  in_handler st = false /\ session_ready st = true /\
  (boot st = booted \/ boot st = nothing_resolved /\ symbols_found P = true).

(** Requests served one after the other by [dummy_calloc]. *)
Fixpoint dummy_callocs (P : Platform) (reqs : list (Z * Z)) : M P (list Z) :=
  match reqs with
  | [] => ret []
  | (num, size) :: rest =>
      r <- dummy_calloc P num size;;
      rs <- dummy_callocs P rest;;
      ret (r :: rs)
  end.

(** The bytes a list of requests asks for. *)
Definition requested (reqs : list (Z * Z)) : Z :=
  fold_right (fun r acc => r.1 * r.2 + acc) 0 reqs.

(** The names [init] looks up, in its order. *)
Definition looked_up : list string :=
  ["calloc"; "malloc"; "free"; "realloc"; "posix_memalign"; "valloc";
   "aligned_alloc"].

(** The identifiers of the cache are below the counter and no two
    keys share one. *)
Definition ids_distinct (m : gmap Z IPCacheEntry) (n : Z) : Prop :=
  (forall k e, m !! k = Some e -> id e < n) /\
  (forall k1 k2 e1 e2,
     m !! k1 = Some e1 -> m !! k2 = Some e2 -> id e1 = id e2 -> k1 = k2).

(** The record a visit writes when it is served from the cache. *)
Definition reference_of (v : Visit) : list string :=
  if skip (entry v) then [] else [reference_record (entry v)].

(** The visit of the same frame with the same entry, served from the
    cache. *)
Definition recalled (v : Visit) : Visit :=
  {| seen := seen v; entry := entry v; cached := true |}.

(** A platform like [toy] on which [dlsym] does not find [realloc],
    and with no base path in the environment. *)
Definition stripped : Platform :=
  {| Heap := Z;
     sys_malloc := fun size h => (0, h);
     sys_free := fun _ h => h;
     sys_realloc := fun ptr size h => (ptr, h);
     sys_calloc := fun num size h => (h, h + wrap64 (num * size));
     sys_posix_memalign := fun cell alignment size h => ((12, cell), h);
     sys_valloc := fun size h => (h, h + size);
     sys_aligned_alloc := fun alignment size h => (h, h + size);
     dlsym_next := fun symbol => negb (String.eqb symbol "realloc");
     getenv := fun _ => None;
     getpid := 7;
     fopen_granted := fun _ _ => true;
     dummy_buf := 4096 |}.

(** A thread of a process on [stripped] that has not allocated yet. *)
Definition bare : State stripped :=
  Build_State stripped nothing_resolved 0 0 false None 0 0 [].

(** A thread of a process on [stripped] that is bootstrapped by other
    means and has its session. *)
Definition settled : State stripped :=
  Build_State stripped booted 1 1 false (Some live_session) 0 0 [].

(** *** [init] with the allocations of [dlsym]

    The comment above [dummy_calloc] records that the call of [dlsym]
    from [findReal] calls [calloc].  That call lands on the entry
    point [calloc] of the tracer.  [asks symbol] lists the arguments
    of the calls of [calloc] that [dlsym] makes when it looks [symbol]
    up, and [c] is the call stack they are made from. *)

Definition dlsym (P : Platform) (c : Cursor) (asks : string -> list (Z * Z))
    (symbol : string) : M P bool :=
  run_calls P (map (fun r => (c, call_calloc r.1 r.2)) (asks symbol));;
  ret (dlsym_next P symbol).

Definition findReal_calling (P : Platform) (c : Cursor)
    (asks : string -> list (Z * Z)) (symbol : string) : M P unit :=
  found <- dlsym P c asks symbol;;
  if found then ret tt
  else
    eprintf P ("could not find original function " +:+ symbol +:+ newline);;
    exit P 1.

Definition init_calling (P : Platform) (c : Cursor)
    (asks : string -> list (Z * Z)) : M P unit :=
  busy <- gets P in_handler;;
  if busy then
    eprintf P ("initialization recursion detected" +:+ newline);;
    exit P 1
  else
    modify P (set_in_handler P true);;
    assign P (with_real_calloc calloc_dummy);;
    findReal_calling P c asks "calloc";; assign P (with_real_calloc calloc_next);;
    findReal_calling P c asks "malloc";; assign P (with_real_malloc true);;
    findReal_calling P c asks "free";; assign P (with_real_free true);;
    findReal_calling P c asks "realloc";; assign P (with_real_realloc true);;
    findReal_calling P c asks "posix_memalign";;
    assign P (with_real_posix_memalign true);;
    findReal_calling P c asks "valloc";; assign P (with_real_valloc true);;
    findReal_calling P c asks "aligned_alloc";;
    assign P (with_real_aligned_alloc true);;
    modify P (set_in_handler P false).

(** The calls of [calloc] that [dlsym] makes for the symbols of a
    list. *)
Definition calloc_calls (asks : string -> list (Z * Z)) (symbols : list string)
  : list Call :=
  map (fun r => call_calloc r.1 r.2) (flat_map asks symbols).

(** [dlsym] looks [calloc] up with one call of [calloc] for 32 bytes
    and every other symbol without any. *)
Definition asks_once (symbol : string) : list (Z * Z) :=
  if String.eqb symbol "calloc" then [(1, 32)] else [].

(** ** Strings and numerals *)

Lemma append_empty_r (s : string) : s +:+ "" = s.
Proof.
  induction s as [|a s IH]; [reflexivity|].
  change (String a (s +:+ "") = String a s). now rewrite IH.
Qed.

Lemma append_assoc (a b c : string) : (a +:+ b) +:+ c = a +:+ (b +:+ c).
Proof.
  induction a as [|x a IH]; [reflexivity|].
  change (String x ((a +:+ b) +:+ c) = String x (a +:+ (b +:+ c))).
  now rewrite IH.
Qed.

Lemma text_cons (a : string) (l : list string) : text (a :: l) = a +:+ text l.
Proof.
  unfold text. destruct l as [|b l].
  - change (a = a +:+ ""). symmetry. apply append_empty_r.
  - reflexivity.
Qed.

Lemma text_app (l k : list string) : text (l ++ k) = text l +:+ text k.
Proof.
  induction l as [|a l IH]; [reflexivity|].
  change ((a :: l) ++ k)%list with (a :: (l ++ k))%list.
  now rewrite !text_cons, IH, append_assoc.
Qed.

Lemma dec_digits_parse (z : Z) :
  DecimalString.NilZero.uint_of_string (dec_digits z)
    = Some (N.to_uint (Z.to_N z)).
Proof.
  unfold dec_digits. apply DecimalString.NilZero.usu.
  destruct (Z.to_N z); simpl; [discriminate|].
  apply DecimalPos.Unsigned.to_uint_nonnil.
Qed.

Lemma dec_digits_inj (a b : Z) :
  0 <= a -> 0 <= b -> dec_digits a = dec_digits b -> a = b.
Proof.
  intros Ha Hb Heq.
  pose proof (dec_digits_parse a) as Hpa. rewrite Heq, dec_digits_parse in Hpa.
  injection Hpa as Hpa. apply DecimalN.Unsigned.to_uint_inj in Hpa. lia.
Qed.

Lemma dec_digits_unsigned (s : string) (z : Z) : "-" +:+ s <> dec_digits z.
Proof.
  intros Heq. pose proof (dec_digits_parse z) as Hp. rewrite <- Heq in Hp.
  change ("-" +:+ s) with (String "-" s) in Hp.
  unfold DecimalString.NilZero.uint_of_string in Hp.
  cbn [DecimalString.NilEmpty.uint_of_string] in Hp.
  destruct (DecimalString.NilEmpty.uint_of_string s); discriminate Hp.
Qed.

(** ** The stack walk *)

Section Walk.

Context (P : Platform).

Lemma evolves_refl (st : State P) td :
  threadData st = Some td -> evolves st st (ipCache td) (next_cache_id st) [].
Proof.
  intros H. exists td, td. rewrite app_nil_r. tauto.
Qed.

Lemma evolves_trans (st st1 st2 : State P) m1 n1 c1 m2 n2 c2 :
  evolves st st1 m1 n1 c1 -> evolves st1 st2 m2 n2 c2 ->
  evolves st st2 m2 n2 (c1 ++ c2)%list.
Proof.
  intros (td & td1 & Ha & Hb & ? & ? & ? & ? & Hw & ? & ? & ? & ? & ? & ? & ?).
  intros (td1' & td2 & Hb' & Hc & ? & ? & ? & ? & Hw' & ? & ? & ? & ? & ? & ? & ?).
  rewrite Hb in Hb'. injection Hb' as <-.
  exists td, td2. rewrite app_assoc, <- Hw, <- Hw'.
  repeat split; congruence.
Qed.

Lemma the_threadData_some (st : State P) td :
  threadData st = Some td -> the_threadData P st = Returned td st.
Proof.
  intros H. unfold the_threadData, bind, gets. now rewrite H.
Qed.

Lemma fprintf_out_some (st : State P) td chunk :
  threadData st = Some td ->
  fprintf_out P chunk st =
    Returned tt (set_threadData P (Some (with_out (fputs chunk (out td)) td)) st).
Proof.
  intros H. unfold fprintf_out, bind. now rewrite (the_threadData_some st td H).
Qed.

Lemma fprintf_out_evolves (st : State P) td chunk :
  threadData st = Some td ->
  exists st', fprintf_out P chunk st = Returned tt st' /\
              evolves st st' (ipCache td) (next_cache_id st) [chunk].
Proof.
  intros H. rewrite (fprintf_out_some st td chunk H).
  eexists; split; [reflexivity|].
  exists td, (with_out (fputs chunk (out td)) td). simpl. tauto.
Qed.

Lemma visit_frame_evolves (st : State P) td f :
  threadData st = Some td ->
  let v := visit_of (ipCache td) (next_cache_id st) f in
  exists st',
    visit_frame P f st = Returned (stop (entry v)) st' /\
    evolves st st' (cache_after (ipCache td) [v])
            (counter_after (next_cache_id st) [v]) (emitted v).
Proof.
  intros Htd v. subst v. unfold visit_of, visit_frame, bind.
  rewrite (the_threadData_some st td Htd).
  destruct (ipCache td !! ip f) as [e|] eqn:Hlk.
  - (* cache hit *)
    unfold emitted, cache_after, counter_after, cache_insert. simpl. rewrite Hlk.
    destruct (skip e) eqn:Hskip.
    + eexists; split; [reflexivity|]. now apply evolves_refl.
    + destruct (fprintf_out_evolves st td (reference_record e) Htd)
        as (st' & Hrun & Hev).
      rewrite Hrun. eauto.
  - (* cache miss *)
    unfold emitted, cache_after, counter_after, cache_insert, gets, modify,
      classify.
    simpl. rewrite Hlk.
    destruct (is_operator_new (name f)) eqn:Hskip; simpl.
    + eexists; split; [reflexivity|].
      eexists td, _. simpl. rewrite app_nil_r.
      split; [exact Htd|]. split; [reflexivity|]. tauto.
    + eexists; split; [reflexivity|].
      eexists td, _. simpl.
      split; [exact Htd|]. split; [reflexivity|]. tauto.
Qed.

Lemma trace_cons m n f outer :
  trace m n (f :: outer) =
    visit_of m n f ::
      (if stop (entry (visit_of m n f)) then []
       else trace (cache_after m [visit_of m n f])
                  (counter_after n [visit_of m n f]) outer).
Proof.
  unfold visit_of, cache_after, counter_after, cache_insert. simpl.
  destruct (m !! ip f) as [e|] eqn:Hlk; simpl; rewrite Hlk; reflexivity.
Qed.

(** The loop against its trace: it returns, and all it does is to
    extend the cache, advance the counter and write what the visits
    emit. *)
Lemma unwind_loop_trace fs : forall (st : State P) td,
  threadData st = Some td ->
  let tr := trace (ipCache td) (next_cache_id st) fs in
  exists st',
    unwind_loop P fs st = Returned tt st' /\
    evolves st st' (cache_after (ipCache td) tr)
            (counter_after (next_cache_id st) tr) (flat_map emitted tr).
Proof.
  induction fs as [|f outer IH]; intros st td Htd tr; subst tr.
  - exists st. split; [reflexivity|]. now apply evolves_refl.
  - rewrite trace_cons.
    destruct (visit_frame_evolves st td f Htd) as (st1 & Hrun & Hev).
    set (v := visit_of (ipCache td) (next_cache_id st) f) in *.
    cbn [unwind_loop]. unfold bind at 1. rewrite Hrun.
    destruct (stop (entry v)) eqn:Hstop.
    + exists st1. split; [reflexivity|].
      simpl. rewrite app_nil_r. exact Hev.
    + pose proof Hev as (td0 & td1 & Ha & Hb & Hm & _ & _ & _ & _ & Hn & _).
      destruct (IH st1 td1 Hb) as (st2 & Hrun2 & Hev2).
      cbv zeta in Hev2. rewrite Hm, Hn in Hev2.
      exists st2. split; [exact Hrun2|].
      exact (evolves_trans _ _ _ _ _ _ _ _ _ Hev Hev2).
Qed.

End Walk.

(** ** Bootstrap and session *)

Section Session.

Context (P : Platform).

Lemma findReal_found symbol (st : State P) :
  dlsym_next P symbol = true -> findReal P symbol st = Returned tt st.
Proof. intros H. unfold findReal. now rewrite H. Qed.

Lemma init_runs (st : State P) :
  in_handler st = false -> symbols_found P = true ->
  init P st = Returned tt (set_in_handler P false (set_boot P booted st)).
Proof.
  intros Hin Hsym. unfold symbols_found in Hsym.
  repeat (apply andb_prop in Hsym; destruct Hsym as [Hsym ?]).
  unfold init, bind, gets. rewrite Hin. unfold assign, modify.
  repeat (rewrite findReal_found by assumption).
  reflexivity.
Qed.

Lemma init_recursion (st : State P) :
  in_handler st = true ->
  exists st', init P st = Exited 1 st' /\
    stderr st' = (stderr st ++ ["initialization recursion detected" +:+ newline])%list.
Proof.
  intros Hin. unfold init, bind, gets. rewrite Hin.
  eexists; split; reflexivity.
Qed.

Lemma session_ready_some (st : State P) td :
  threadData st = Some td -> session_ready st = true.
Proof. intros H. unfold session_ready. now rewrite H. Qed.

Lemma opened_some (st : State P) td :
  threadData st = Some td -> opened st = st.
Proof. intros H. unfold opened. now rewrite H. Qed.

(** The first use of [threadData] with the output file granted. *)
Lemma the_threadData_ready (st : State P) :
  session_ready st = true ->
  exists td,
    the_threadData P st = Returned td (opened st) /\
    threadData (opened st) = Some td /\
    ipCache td = cache_of st /\ f_written (out td) = written st.
Proof.
  unfold session_ready, opened, cache_of, written.
  destruct (threadData st) as [td|] eqn:Htd; intros Hok.
  - exists td. rewrite (the_threadData_some P st td Htd). auto.
  - exists (fresh_session st).
    unfold the_threadData, bind, gets. rewrite Htd.
    unfold ThreadData_ctor, bind, gets, modify, fopen. simpl.
    fold (session_path st). rewrite Hok. auto.
Qed.

(** The first use of [threadData] with the output file refused. *)
Lemma the_threadData_refused (st : State P) :
  session_ready st = false ->
  exists st',
    the_threadData P st = Exited 1 st' /\
    stderr st' =
      (stderr st ++ ["Failed to open output file: " +:+ session_path st
                       +:+ newline])%list.
Proof.
  unfold session_ready.
  destruct (threadData st) as [td|] eqn:Htd; intros Hok; [discriminate|].
  unfold the_threadData, bind, gets. rewrite Htd.
  unfold ThreadData_ctor, bind, gets, modify, fopen. simpl.
  fold (session_path st). rewrite Hok.
  eexists; split; reflexivity.
Qed.

Lemma opened_fields (st : State P) :
  boot (opened st) = boot st /\ next_cache_id (opened st) = next_cache_id st /\
  in_handler (opened st) = in_handler st /\
  dummy_offset (opened st) = dummy_offset st /\ heap (opened st) = heap st /\
  stderr (opened st) = stderr st /\
  written (opened st) = written st /\ cache_of (opened st) = cache_of st.
Proof.
  unfold opened, written, cache_of.
  destruct (threadData st) eqn:Htd; simpl; rewrite ?Htd; tauto.
Qed.

Lemma fprintf_out_opened (st : State P) chunk :
  session_ready st = true ->
  fprintf_out P chunk st = fprintf_out P chunk (opened st).
Proof.
  intros Hok.
  destruct (the_threadData_ready st Hok) as (td & Hrun & Htd & _).
  unfold fprintf_out, bind.
  now rewrite Hrun, (the_threadData_some P (opened st) td Htd).
Qed.

Lemma fprintf_out_refused (st : State P) chunk :
  session_ready st = false ->
  exists st', fprintf_out P chunk st = Exited 1 st'.
Proof.
  intros Hno. destruct (the_threadData_refused st Hno) as (st' & Hrun & _).
  exists st'. unfold fprintf_out, bind. now rewrite Hrun.
Qed.

End Session.

(** ** The handlers *)

Section Handlers.

Context (P : Platform).

(** [unw_step] returns a positive code exactly when a frame is left. *)
Lemma unw_step_positive (c : Cursor) :
  match frames c with
  | [] => (unw_step c).1.1 <= 0 /\ (unw_step c).1.2 = None
  | f :: outer =>
      (unw_step c).1.1 > 0 /\ (unw_step c).1.2 = Some f /\
      frames (unw_step c).2 = outer
  end.
Proof.
  unfold unw_step. destruct (frames c); simpl; [|repeat split; lia].
  split; [|reflexivity]. destruct (ending c); simpl; lia.
Qed.

Lemma skip_frames_two (c : Cursor) :
  skip_frames 2 c =
    match frames c with
    | _ :: _ :: outer => Some {| frames := outer; ending := ending c |}
    | _ => None
    end.
Proof.
  unfold skip_frames, unw_step.
  destruct (frames c) as [|a [|b outer]]; simpl.
  - destruct (ending c); reflexivity.
  - destruct (ending c); reflexivity.
  - reflexivity.
Qed.

Lemma print_caller_evolves (c : Cursor) (st : State P) td :
  threadData st = Some td ->
  let tr := trace (ipCache td) (next_cache_id st) (walked c) in
  exists st',
    print_caller P c st = Returned tt st' /\
    evolves st st' (cache_after (ipCache td) tr)
            (counter_after (next_cache_id st) tr) (flat_map emitted tr).
Proof.
  intros Htd tr. subst tr. unfold print_caller, walked.
  rewrite skip_frames_two.
  destruct (frames c) as [|a [|b outer]]; simpl.
  - exists st. split; [reflexivity|]. now apply evolves_refl.
  - exists st. split; [reflexivity|]. now apply evolves_refl.
  - unfold bind at 1. rewrite (the_threadData_some P st td Htd).
    exact (unwind_loop_trace P outer st td Htd).
Qed.

Lemma handleMalloc_evolves (c : Cursor) ptr size (st : State P) td :
  threadData st = Some td ->
  let tr := trace (ipCache td) (next_cache_id st) (walked c) in
  exists st',
    handleMalloc P c ptr size st = Returned tt st' /\
    evolves st st' (cache_after (ipCache td) tr)
            (counter_after (next_cache_id st) tr)
            (alloc_record ptr size (flat_map emitted tr)).
Proof.
  intros Htd tr. subst tr. unfold handleMalloc.
  destruct (fprintf_out_evolves P st td (alloc_header ptr size) Htd)
    as (st1 & Hrun1 & Hev1).
  unfold bind at 1. unfold alloc_header in Hrun1. rewrite Hrun1.
  pose proof Hev1 as (td0 & td1 & Ha & Hb & Hm & _ & _ & _ & _ & Hn & _).
  destruct (print_caller_evolves c st1 td1 Hb) as (st2 & Hrun2 & Hev2).
  cbv zeta in Hev2. rewrite Hm, Hn in Hev2.
  unfold bind at 1. rewrite Hrun2.
  pose proof Hev2 as (td1' & td2 & _ & Hc & _).
  destruct (fprintf_out_evolves P st2 td2 newline Hc) as (st3 & Hrun3 & Hev3).
  rewrite Hrun3. exists st3. split; [reflexivity|].
  pose proof Hev2 as (_ & td2' & _ & Hc' & Hm2 & _ & _ & _ & _ & Hn2 & _).
  rewrite Hc in Hc'. injection Hc' as <-. rewrite Hm2, Hn2 in Hev3.
  exact (evolves_trans P _ _ _ _ _ [_] _ _ _
           Hev1 (evolves_trans P _ _ _ _ _ _ _ _ _ Hev2 Hev3)).
Qed.

Lemma handleFree_evolves ptr (st : State P) td :
  threadData st = Some td ->
  exists st',
    handleFree P ptr st = Returned tt st' /\
    evolves st st' (ipCache td) (next_cache_id st) (free_record ptr).
Proof.
  intros Htd. exact (fprintf_out_evolves P st td _ Htd).
Qed.

Lemma handleMalloc_opened (c : Cursor) ptr size (st : State P) :
  session_ready st = true ->
  handleMalloc P c ptr size st = handleMalloc P c ptr size (opened st).
Proof.
  intros Hok. unfold handleMalloc, bind.
  now rewrite (fprintf_out_opened P st _ Hok).
Qed.

Lemma handleFree_opened ptr (st : State P) :
  session_ready st = true ->
  handleFree P ptr st = handleFree P ptr (opened st).
Proof. intros Hok. exact (fprintf_out_opened P st _ Hok). Qed.

End Handlers.

(** ** The guarded stretch of an entry point *)

Section Guard.

Context (P : Platform).

Lemma handleFree_does ptr :
  handler_does P (handleFree P ptr) (fun m n => (m, n, free_record ptr)).
Proof.
  split; [|split].
  - intros s Hok. now apply handleFree_opened.
  - intros s Hno. now apply fprintf_out_refused.
  - intros s td Htd. simpl. now apply handleFree_evolves.
Qed.

Lemma handleMalloc_does c ptr size :
  handler_does P (handleMalloc P c ptr size)
    (fun m n => (cache_after m (trace m n (walked c)),
                 counter_after n (trace m n (walked c)),
                 alloc_record ptr size (flat_map emitted (trace m n (walked c))))).
Proof.
  split; [|split].
  - intros s Hok. now apply handleMalloc_opened.
  - intros s Hno. destruct (fprintf_out_refused P s (alloc_header ptr size) Hno)
      as (s' & Hrun).
    exists s'. unfold handleMalloc, bind. unfold alloc_header in Hrun.
    now rewrite Hrun.
  - intros s td Htd. simpl. now apply handleMalloc_evolves.
Qed.

(** [realloc] runs the two handlers in a row. *)
Lemma handleFree_handleMalloc_does c old ptr size :
  handler_does P (handleFree P old;; handleMalloc P c ptr size)
    (fun m n => (cache_after m (trace m n (walked c)),
                 counter_after n (trace m n (walked c)),
                 (free_record old ++
                  alloc_record ptr size (flat_map emitted (trace m n (walked c))))%list)).
Proof.
  split; [|split].
  - intros s Hok. unfold bind. now rewrite (handleFree_opened P old s Hok).
  - intros s Hno.
    destruct (fprintf_out_refused P s ("-" +:+ fmt_p old +:+ newline) Hno)
      as (s' & Hrun).
    exists s'. unfold bind. unfold handleFree. now rewrite Hrun.
  - intros s td Htd. simpl.
    destruct (handleFree_evolves P old s td Htd) as (s1 & Hrun1 & Hev1).
    pose proof Hev1 as (td0 & td1 & Ha & Hb & Hm & _ & _ & _ & _ & Hn & _).
    rewrite Ha in Htd. injection Htd as ->.
    destruct (handleMalloc_evolves P c ptr size s1 td1 Hb) as (s2 & Hrun2 & Hev2).
    cbv zeta in Hev2. rewrite Hm, Hn in Hev2.
    exists s2. unfold bind. rewrite Hrun1. split; [exact Hrun2|].
    exact (evolves_trans P _ _ _ _ _ _ _ _ _ Hev1 Hev2).
Qed.

(** The stretch between the two assignments to [in_handler], for a
    thread that has or can open its session. *)
Lemma guard_section (h : M P unit) eff (s : State P) :
  handler_does P h eff -> session_ready s = true ->
  exists s',
    (modify P (set_in_handler P true);; h;; modify P (set_in_handler P false)) s
      = Returned tt s' /\
    traced_to (set_in_handler P false s) s'
      (eff (cache_of s) (next_cache_id s)).2
      (eff (cache_of s) (next_cache_id s)).1.1
      (eff (cache_of s) (next_cache_id s)).1.2.
Proof.
  intros (Hopen & _ & Hdoes) Hok.
  set (s1 := set_in_handler P true s).
  assert (Hok1 : session_ready s1 = true) by exact Hok.
  destruct (the_threadData_ready P s1 Hok1) as (td & _ & Htd & Hm & Hw).
  destruct (Hdoes (opened s1) td Htd) as (s2 & Hrun & Hev).
  destruct (opened_fields P s1) as (Hb & Hn & _ & Hd & Hh & He & _ & _).
  rewrite Hm, Hn in Hev. change (cache_of s1) with (cache_of s) in Hev.
  change (next_cache_id s1) with (next_cache_id s) in Hev.
  exists (set_in_handler P false s2).
  split.
  - unfold bind, modify. fold s1. now rewrite (Hopen s1 Hok1), Hrun.
  - destruct Hev as (td0 & td2 & Ha & Hc & ? & ? & ? & ? & Hw2 & ? & ? & ? & ? & ? & ? & ?).
    rewrite Htd in Ha. injection Ha as <-.
    unfold traced_to, written, cache_of. simpl. rewrite Hc.
    change (threadData s) with (threadData s1). fold (written s1).
    rewrite Hw2, Hw.
    repeat split; try congruence; eauto.
    all: subst s1; simpl in *; congruence.
Qed.

Lemma guard_section_refused (h : M P unit) eff (s : State P) :
  handler_does P h eff -> session_ready s = false ->
  exists s',
    (modify P (set_in_handler P true);; h;; modify P (set_in_handler P false)) s
      = Exited 1 s'.
Proof.
  intros (_ & Hno & _) Hok.
  destruct (Hno (set_in_handler P true s) Hok) as (s' & Hrun).
  exists s'. unfold bind, modify. now rewrite Hrun.
Qed.

End Guard.

(** ** The entry points *)

Section Entry.

Context (P : Platform).

Lemma bootstraps_guarded call (st : State P) :
  bootstraps call st -> in_handler st = true -> known call (boot st) = true.
Proof. intros [Hk|(_ & Hin & _)] Hbusy; [exact Hk|congruence]. Qed.

Lemma after_boot_known call (st : State P) :
  bootstraps call st -> known call (boot (after_boot call st)) = true.
Proof.
  intros Hboot. unfold after_boot.
  destruct (known call (boot st)) eqn:Hk; [exact Hk|].
  destruct call; reflexivity.
Qed.

Lemma after_boot_fields call (st : State P) :
  bootstraps call st ->
  in_handler (after_boot call st) = in_handler st /\
  threadData (after_boot call st) = threadData st /\
  next_cache_id (after_boot call st) = next_cache_id st /\
  next_thread_id (after_boot call st) = next_thread_id st /\
  heap (after_boot call st) = heap st /\
  stderr (after_boot call st) = stderr st /\
  dummy_offset (after_boot call st) = dummy_offset st.
Proof.
  intros Hboot. unfold after_boot.
  destruct (known call (boot st)) eqn:Hk; [tauto|].
  destruct Hboot as [Hk'|(_ & Hin & _)]; [congruence|].
  simpl. rewrite Hin. tauto.
Qed.

(** The first step of an entry point: [init] runs when the pointer is
    null. *)
Lemma init_after_boot call (st : State P) :
  bootstraps call st -> known call (boot st) = false ->
  init P st = Returned tt (after_boot call st).
Proof.
  intros [Hk|(_ & Hin & Hsym)] Hno; [congruence|].
  unfold after_boot. rewrite Hno. now apply init_runs.
Qed.

Ltac first_step Hboot Hc :=
  match goal with
  | |- context [init P ?s] =>
      rewrite (init_after_boot _ s Hboot) by (simpl; rewrite ?Hc; auto)
  end.

(** With the guard engaged an entry point is the call through its
    pointer and nothing else. *)
Lemma run_call_guarded c call (st : State P) :
  bootstraps call st -> in_handler st = true ->
  run_call P c call st =
    Returned (true_call P call (heap st)).1
             (set_heap P (true_call P call (heap st)).2 st).
Proof.
  intros Hboot Hbusy.
  pose proof (bootstraps_guarded call st Hboot Hbusy) as Hk.
  destruct call; simpl in Hk; simpl;
    unfold malloc, free, realloc, calloc, posix_memalign, aligned_alloc, valloc,
      call_real_malloc, call_real_free, call_real_realloc, call_real_calloc,
      call_real_posix_memalign, call_real_aligned_alloc, call_real_valloc,
      bind, gets, ret.
  all: try (destruct (real_calloc (boot st)) eqn:Hc; try discriminate).
  all: rewrite ?Hk; simpl; rewrite ?Hk, ?Hc; simpl.
  all: repeat match goal with
         | |- context [let '(_, _) := ?x in _] => destruct x as [? ?]
         end; simpl; rewrite ?Hbusy; reflexivity.
Qed.

(** With the guard free an entry point is its first step, the call
    through its pointer, and the guarded stretch. *)
Lemma run_call_body c call (st : State P) :
  bootstraps call st -> in_handler st = false ->
  run_call P c call st =
    ((modify P (set_in_handler P true);;
      handler_of P c call (true_call P call (heap st)).1;;
      modify P (set_in_handler P false));;
     ret (true_call P call (heap st)).1)
      (set_heap P (true_call P call (heap st)).2 (after_boot call st)).
Proof.
  intros Hboot Hfree.
  pose proof (after_boot_known call st Hboot) as Hk.
  destruct (after_boot_fields call st Hboot) as (Hin & _ & _ & _ & Hh & _).
  rewrite Hfree in Hin.
  destruct call; simpl in Hk; simpl;
    unfold malloc, free, realloc, calloc, posix_memalign, aligned_alloc, valloc;
    unfold bind, gets, modify, ret.
  all: match goal with
       | |- context [real_calloc (boot ?s)] =>
           destruct (real_calloc (boot s)) eqn:Hc
       | |- context [if ?b then _ else init P] => destruct b eqn:Hc
       end.
  all: try (first_step Hboot Hc).
  all: repeat match goal with
         | H : bootstraps _ _ |- _ =>
             destruct H as [H|(H & _)]; simpl in H; rewrite Hc in H;
             try discriminate H; clear H
         end.
  all: try match goal with
         | |- context [after_boot ?k ?s] =>
             (assert (Ha : after_boot k s = s)
                by (unfold after_boot; simpl; now rewrite Hc));
             rewrite Ha in *; clear Ha
         end.
  all: match goal with
       | |- context [after_boot ?k ?s] =>
           generalize dependent (after_boot k s); intros s0 Hk Hin Hh
       | _ => idtac
       end.
  all: unfold call_real_malloc, call_real_free, call_real_realloc,
         call_real_calloc, call_real_posix_memalign, call_real_aligned_alloc,
         call_real_valloc; rewrite ?Hk, ?Hc, ?Hh.
  all: try (destruct (real_calloc (boot s0)); try discriminate Hk).
  all: repeat match goal with
         | |- context [let '(_, _) := ?x in _] => destruct x as [? ?]
         end; simpl; rewrite ?Hin, ?Hfree; try reflexivity.
  all: repeat match goal with
         | |- context [handleFree P ?a ?s] => destruct (handleFree P a s)
         | |- context [handleMalloc P ?c ?a ?b ?s] =>
             destruct (handleMalloc P c a b s)
         end; reflexivity.
Qed.

Lemma handler_of_does c call (h : Heap P) :
  handler_does P (handler_of P c call (true_call P call h).1)
    (fun m n => (cache_after m (walk_of c call m n),
                 counter_after n (walk_of c call m n),
                 recorded c call (true_call P call h).1 m n)).
Proof.
  destruct call; simpl;
    repeat match goal with
      | |- context [let '(_, _) := ?x in _] => destruct x as [? ?]
      end; simpl.
  - apply handleMalloc_does.
  - apply handleFree_does.
  - apply handleFree_handleMalloc_does.
  - apply handleMalloc_does.
  - apply handleMalloc_does.
  - apply handleMalloc_does.
  - apply handleMalloc_does.
Qed.

(** A traced call of a thread that has or can open its session. *)
Lemma run_call_traced c call (st : State P) :
  bootstraps call st -> in_handler st = false -> session_ready st = true ->
  exists st',
    run_call P c call st = Returned (true_call P call (heap st)).1 st' /\
    heap st' = (true_call P call (heap st)).2 /\
    in_handler st' = false /\
    written st' =
      (written st ++
       recorded c call (true_call P call (heap st)).1
                (cache_of st) (next_cache_id st))%list /\
    cache_of st' =
      cache_after (cache_of st) (walk_of c call (cache_of st) (next_cache_id st)) /\
    next_cache_id st' =
      counter_after (next_cache_id st)
                    (walk_of c call (cache_of st) (next_cache_id st)) /\
    is_Some (threadData st') /\
    boot st' = boot (after_boot call st) /\ stderr st' = stderr st.
Proof.
  intros Hboot Hfree Hok.
  rewrite (run_call_body c call st Hboot Hfree).
  destruct (after_boot_fields call st Hboot) as (_ & Htd & Hn & Ht & _ & He & _).
  set (s := set_heap P (true_call P call (heap st)).2 (after_boot call st)).
  assert (Hok' : session_ready s = true).
  { unfold session_ready, session_path in *. simpl. now rewrite Htd, Ht. }
  destruct (guard_section P _ _ s (handler_of_does c call (heap st)) Hok')
    as (s' & Hrun & Hin' & Hw & Hm & Hn' & Hsome & Hb & Hh & He' & _).
  assert (Hcache : cache_of s = cache_of st).
  { unfold cache_of. simpl. now rewrite Htd. }
  assert (Hwr : written s = written st).
  { unfold written. simpl. now rewrite Htd. }
  change (next_cache_id s) with (next_cache_id (after_boot call st)) in *.
  rewrite Hcache, Hn in *. simpl in *.
  exists s'. unfold bind at 1. rewrite Hrun.
  change (written (set_in_handler P false s)) with (written s) in Hw.
  rewrite Hwr in Hw.
  repeat split; try assumption; try congruence.
Qed.

(** [init] ends the process when it is entered with the guard engaged
    or when a symbol is missing. *)
Lemma init_fails (st : State P) :
  in_handler st = true \/ symbols_found P = false ->
  exists st', init P st = Exited 1 st'.
Proof.
  intros Hwhy.
  destruct (in_handler st) eqn:Hin.
  - destruct (init_recursion P st Hin) as (st' & Hrun & _). eauto.
  - destruct Hwhy as [Hbusy|Hsym]; [discriminate|].
    unfold symbols_found in Hsym. revert Hsym.
    unfold init, bind, gets. rewrite Hin.
    unfold assign, modify, findReal, bind, eprintf, exit, modify, ret.
    repeat match goal with
      | |- context [dlsym_next P ?sym] => destruct (dlsym_next P sym)
      end; simpl; intros Hsym; try discriminate Hsym; eexists; reflexivity.
Qed.

(** An entry point whose first step ends the process. *)
Lemma run_call_init_exit c call (st st' : State P) code :
  unset call (boot st) = true -> init P st = Exited code st' ->
  run_call P c call st = Exited code st'.
Proof.
  intros Hu Hinit.
  destruct call; simpl in Hu;
    unfold run_call, malloc, free, realloc, calloc, posix_memalign,
      aligned_alloc, valloc, bind, gets.
  all: try (destruct (real_calloc (boot st)); try discriminate Hu).
  all: try (apply negb_true_iff in Hu; rewrite Hu).
  all: now rewrite Hinit.
Qed.

Lemma known_or_unset call (b : Bootstrap) :
  stand_in call b = false -> known call b = true \/ unset call b = true.
Proof.
  destruct call; simpl; intros H.
  4: destruct (real_calloc b); try discriminate H; auto.
  all: match goal with |- ?x = true \/ _ => destruct x end; auto.
Qed.

(** A traced call of a thread whose output file is refused. *)
Lemma run_call_refused c call (st : State P) :
  bootstraps call st -> in_handler st = false -> session_ready st = false ->
  exists st', run_call P c call st = Exited 1 st'.
Proof.
  intros Hboot Hfree Hno.
  rewrite (run_call_body c call st Hboot Hfree).
  destruct (after_boot_fields call st Hboot) as (_ & Htd & _ & Ht & _).
  set (s := set_heap P (true_call P call (heap st)).2 (after_boot call st)).
  assert (Hno' : session_ready s = false).
  { unfold session_ready, session_path in *. simpl. now rewrite Htd, Ht. }
  destruct (guard_section_refused P _ _ s (handler_of_does c call (heap st)) Hno')
    as (s' & Hrun).
  exists s'. unfold bind at 1. now rewrite Hrun.
Qed.

End Entry.

(** ** Properties of the interception entry points *)

Section Interception.

Context (P : Platform).

Lemma emitted_chain_elements (tr : list Visit) :
  Forall chain_element (flat_map emitted tr).
Proof.
  induction tr as [|v tr IH]; simpl; [constructor|].
  apply Forall_app. split; [|exact IH].
  unfold emitted. destruct (skip (entry v)); [constructor|].
  destruct (cached v); repeat constructor;
    exists (entry v), (seen v); auto.
Qed.


(** C1 (allocator transparency). Take any call of an interception
    entry point by the traced program, that is, any call but the
    [calloc] that [dlsym] makes from inside [init] and that finds
    [real_calloc] set to the stand-in.  The call never goes through a
    null pointer; when it returns, the value handed to the caller and
    the state the next allocator is left in are exactly those of the
    same call made on the next allocator alone, whether the guard was
    engaged (no tracing) or free (tracing); and when it does not
    return, the process has ended with status 1, in [init] or for an
    output file that is refused. *)
Theorem allocator_transparency (c : Cursor) (call : Call) (st : State P) :
  stand_in call (boot st) = false ->
  match run_call P c call st with
  | Returned res st' =>
      res = (true_call P call (heap st)).1 /\
      heap st' = (true_call P call (heap st)).2
  | Exited code _ =>
      code = 1 /\
      (unset call (boot st) = true /\
       (in_handler st = true \/ symbols_found P = false) \/
       in_handler st = false /\ session_ready st = false)
  | Faulted _ => False
  end.
Proof.
  intros Hreal.
  assert (Hcases : bootstraps call st \/
            unset call (boot st) = true /\
            (in_handler st = true \/ symbols_found P = false)).
  { destruct (known_or_unset call (boot st) Hreal) as [Hk|Hu];
      [left; now left|].
    destruct (in_handler st) eqn:Hin; [right; auto|].
    destruct (symbols_found P) eqn:Hsym; [left; right; auto|right; auto]. }
  destruct Hcases as [Hboot|(Hu & Hwhy)].
  - destruct (in_handler st) eqn:Hin.
    + rewrite (run_call_guarded P c call st Hboot Hin). split; reflexivity.
    + destruct (session_ready st) eqn:Hok.
      * destruct (run_call_traced P c call st Hboot Hin Hok)
          as (st' & Hrun & Hh & _).
        rewrite Hrun. split; [reflexivity|exact Hh].
      * destruct (run_call_refused P c call st Hboot Hin Hok) as (st' & Hrun).
        rewrite Hrun. auto.
  - destruct (init_fails P st Hwhy) as (st' & Hinit).
    rewrite (run_call_init_exit P c call st st' 1 Hu Hinit). auto.
Qed.


Lemma run_call_realloc c ptr size (st st' : State P) r :
  run_call P c (call_realloc ptr size) st = Returned (res_ptr r) st' ->
  realloc P c ptr size st = Returned r st'.
Proof.
  unfold run_call, bind, ret.
  destruct (realloc P c ptr size st); intros [= <- <-]; reflexivity.
Qed.

Lemma run_call_calloc c num size (st st' : State P) r :
  run_call P c (call_calloc num size) st = Returned (res_ptr r) st' ->
  calloc P c num size st = Returned r st'.
Proof.
  unfold run_call, bind, ret.
  destruct (calloc P c num size st); intros [= <- <-]; reflexivity.
Qed.

Lemma run_call_posix_memalign c cell alignment size (st st' : State P) rc cell' :
  run_call P c (call_posix_memalign cell alignment size) st
    = Returned (res_code rc cell') st' ->
  posix_memalign P c cell alignment size st = Returned (rc, cell') st'.
Proof.
  unfold run_call, bind, ret.
  destruct (posix_memalign P c cell alignment size st) as [[a b] s| |];
    intros [= <- <- <-]; reflexivity.
Qed.

(** C4 (realloc decomposition). A [realloc] made with the guard free,
    by a thread that is not stopped on the way by [init] or by a
    refused output file, returns what the next [realloc] returns and
    appends to the output file, in this order and with nothing in
    between, the record of a free of the old pointer and the record of
    an allocation of the returned pointer with the new size; the
    returned pointer may be the old one. *)
Theorem realloc_decomposition (c : Cursor) (ptr size : Z) (st : State P) :
  bootstraps (call_realloc ptr size) st ->
  in_handler st = false -> session_ready st = true ->
  exists st' elems,
    realloc P c ptr size st
      = Returned (sys_realloc P ptr size (heap st)).1 st' /\
    Forall chain_element elems /\
    written st' =
      (written st ++
       free_record ptr ++
       alloc_record (sys_realloc P ptr size (heap st)).1 size elems)%list.
Proof.
  intros Hboot Hin Hok.
  destruct (run_call_traced P c _ st Hboot Hin Hok) as (st' & Hrun & _ & _ & Hw & _).
  simpl in Hrun, Hw.
  destruct (sys_realloc P ptr size (heap st)) as [r h] eqn:Hsys. simpl in *.
  exists st', (flat_map emitted (trace (cache_of st) (next_cache_id st) (walked c))).
  split; [exact (run_call_realloc c ptr size st st' r Hrun)|].
  split; [apply emitted_chain_elements|exact Hw].
Qed.

(** C9 (a failed [posix_memalign] is recorded). Whatever code the
    next [posix_memalign] returns, the codes other than 0 of a failure
    included, the entry point called with the guard free, by a thread
    that is not stopped on the way by [init] or by a refused output
    file, appends an allocation record, made of the content of
    [*memptr] after the call and of the requested size, returns that
    code and leaves [*memptr] as the next allocator did: nothing in
    the recording looks at the code. *)
Theorem posix_memalign_failure_recorded (c : Cursor) (cell alignment size : Z)
    (st : State P) :
  bootstraps (call_posix_memalign cell alignment size) st ->
  in_handler st = false -> session_ready st = true ->
  exists st' elems,
    posix_memalign P c cell alignment size st
      = Returned (sys_posix_memalign P cell alignment size (heap st)).1 st' /\
    Forall chain_element elems /\
    written st' =
      (written st ++
       alloc_record (sys_posix_memalign P cell alignment size (heap st)).1.2
                    size elems)%list.
Proof.
  intros Hboot Hin Hok.
  destruct (run_call_traced P c _ st Hboot Hin Hok) as (st' & Hrun & _ & _ & Hw & _).
  simpl in Hrun, Hw.
  destruct (sys_posix_memalign P cell alignment size (heap st)) as [[rc cell'] h]
    eqn:Hsys.
  simpl in *.
  exists st', (flat_map emitted (trace (cache_of st) (next_cache_id st) (walked c))).
  split; [exact (run_call_posix_memalign c _ _ _ st st' rc cell' Hrun)|].
  split; [apply emitted_chain_elements|exact Hw].
Qed.

(** C10 (the size [calloc] records). A [calloc] made with the guard
    free, by a thread that is not stopped on the way by [init] or by a
    refused output file, appends one allocation record whose size
    field is the [%ld] rendering of the single word
    [num * size mod 2^64], not of the pair; and whenever the product
    of the two words does not fit in 64 bits, that word is not the
    product and the field is not the decimal numeral of the product. *)
Theorem calloc_records_wrapped_product (c : Cursor) (num size : Z) (st : State P) :
  bootstraps (call_calloc num size) st ->
  in_handler st = false -> session_ready st = true ->
  exists st' elems,
    calloc P c num size st = Returned (sys_calloc P num size (heap st)).1 st' /\
    Forall chain_element elems /\
    written st' =
      (written st ++
       ("+" +:+ fmt_ld (wrap64 (num * size)) +:+ ":"
          +:+ fmt_p (sys_calloc P num size (heap st)).1 +:+ " ")
         :: elems ++ [newline])%list /\
    (0 <= num < 2 ^ 64 -> 0 <= size < 2 ^ 64 -> 2 ^ 64 <= num * size ->
     wrap64 (num * size) <> num * size /\
     fmt_ld (wrap64 (num * size)) <> dec_digits (num * size)).
Proof.
  intros Hboot Hin Hok.
  destruct (run_call_traced P c _ st Hboot Hin Hok) as (st' & Hrun & _ & _ & Hw & _).
  simpl in Hrun, Hw.
  destruct (sys_calloc P num size (heap st)) as [r h] eqn:Hsys. simpl in *.
  exists st', (flat_map emitted (trace (cache_of st) (next_cache_id st) (walked c))).
  split; [exact (run_call_calloc c num size st st' r Hrun)|].
  split; [apply emitted_chain_elements|].
  split; [exact Hw|].
  intros Hnum Hsize Hover.
  assert (Hrange : 0 <= wrap64 (num * size) < 2 ^ 64)
    by (unfold wrap64; apply Z.mod_pos_bound; lia).
  split; [lia|].
  unfold fmt_ld. cbv zeta.
  assert (Hidem : wrap64 (wrap64 (num * size)) = wrap64 (num * size))
    by (unfold wrap64; apply Z.mod_mod; lia).
  rewrite Hidem.
  destruct (wrap64 (num * size) <? 2 ^ 63).
  - intros Heq. apply dec_digits_inj in Heq; lia.
  - apply dec_digits_unsigned.
Qed.

Lemma appended_evolves {A} (m : M P A) (st st' : State P) a m' n' chunks :
  m st = Returned a st' -> evolves st st' m' n' chunks ->
  appended m st = chunks.
Proof.
  intros Hrun (td & td' & Ha & Hb & _ & _ & _ & _ & Hw & _).
  unfold appended, written. rewrite Hrun, Ha, Hb, Hw.
  apply drop_app_length.
Qed.

Lemma appended_opened {A} (m : M P A) (st : State P) :
  m st = m (opened st) -> appended m st = appended m (opened st).
Proof.
  intros H. unfold appended. rewrite H.
  destruct (opened_fields P st) as (_ & _ & _ & _ & _ & _ & Hw & _).
  now rewrite Hw.
Qed.

Lemma wire_format_session (c : Cursor) (ptr size : Z) (st : State P) td :
  threadData st = Some td ->
  (exists st', handleMalloc P c ptr size st = Returned tt st') /\
  text (appended (handleMalloc P c ptr size) st) =
    "+" +:+ fmt_ld size +:+ ":" +:+ fmt_p ptr +:+ " "
      +:+ text (appended (print_caller P c)
                         (after (fprintf_out P (alloc_header ptr size)) st))
      +:+ newline /\
  Forall chain_element
    (appended (print_caller P c)
              (after (fprintf_out P (alloc_header ptr size)) st)) /\
  (exists st', handleFree P ptr st = Returned tt st') /\
  text (appended (handleFree P ptr) st) = "-" +:+ fmt_p ptr +:+ newline.
Proof.
  intros Htd.
  destruct (handleMalloc_evolves P c ptr size st td Htd) as (st3 & Hrun3 & Hev3).
  destruct (fprintf_out_evolves P st td (alloc_header ptr size) Htd)
    as (st1 & Hrun1 & Hev1).
  pose proof Hev1 as (td0 & td1 & Ha & Hb & Hm & _ & _ & _ & _ & Hn & _).
  destruct (print_caller_evolves P c st1 td1 Hb) as (st2 & Hrun2 & Hev2).
  cbv zeta in Hev2. rewrite Hm, Hn in Hev2.
  destruct (handleFree_evolves P ptr st td Htd) as (st4 & Hrun4 & Hev4).
  unfold after. rewrite Hrun1.
  rewrite (appended_evolves _ _ _ _ _ _ _ Hrun3 Hev3).
  rewrite (appended_evolves _ _ _ _ _ _ _ Hrun2 Hev2).
  rewrite (appended_evolves _ _ _ _ _ _ _ Hrun4 Hev4).
  split; [eauto|].
  split.
  { unfold alloc_record, alloc_header.
    rewrite text_cons, text_app, text_cons.
    change (text []) with "". rewrite append_empty_r.
    now rewrite !append_assoc. }
  split; [apply emitted_chain_elements|].
  split; [eauto|reflexivity].
Qed.

(** C3 (wire format of the events), as the code has it. For a thread
    that has or can open its session, a traced allocation returns and
    appends ['+'], the size as [%ld] prints it, [':'], the pointer as
    [%p] prints it, one space, the elements of the reference chain that
    [print_caller] writes, and a line feed, with nothing else in
    between; a traced free returns and appends ['-'], the pointer as
    [%p] prints it and a line feed, with no reference chain.  [%p]
    prints a pointer that is not null as [0x] and its hexadecimal
    digits. *)
Theorem event_wire_format (c : Cursor) (ptr size : Z) (st : State P) :
  session_ready st = true ->
  (exists st', handleMalloc P c ptr size st = Returned tt st') /\
  text (appended (handleMalloc P c ptr size) st) =
    "+" +:+ fmt_ld size +:+ ":" +:+ fmt_p ptr +:+ " "
      +:+ text (appended (print_caller P c)
                         (after (fprintf_out P (alloc_header ptr size)) st))
      +:+ newline /\
  Forall chain_element
    (appended (print_caller P c)
              (after (fprintf_out P (alloc_header ptr size)) st)) /\
  (exists st', handleFree P ptr st = Returned tt st') /\
  text (appended (handleFree P ptr) st) = "-" +:+ fmt_p ptr +:+ newline /\
  (0 < ptr < 2 ^ 64 -> fmt_p ptr = "0x" +:+ hex_digits ptr).
Proof.
  intros Hok.
  destruct (the_threadData_ready P st Hok) as (td & _ & Htd & _).
  destruct (wire_format_session c ptr size (opened st) td Htd)
    as (Hret1 & Halloc & Hchain & Hret2 & Hfree).
  rewrite (handleMalloc_opened P c ptr size st Hok).
  rewrite (appended_opened _ st (handleMalloc_opened P c ptr size st Hok)).
  rewrite (handleFree_opened P ptr st Hok).
  rewrite (appended_opened _ st (handleFree_opened P ptr st Hok)).
  assert (Hafter : after (fprintf_out P (alloc_header ptr size)) st
                   = after (fprintf_out P (alloc_header ptr size)) (opened st)).
  { unfold after. now rewrite (fprintf_out_opened P st _ Hok). }
  rewrite Hafter.
  repeat (split; [assumption|]).
  intros Hptr. unfold fmt_p, wrap64.
  rewrite Z.mod_small by lia.
  destruct (ptr =? 0) eqn:Hz; [lia|reflexivity].
Qed.

End Interception.

(** C3, as the specification words it, fails: the record of an
    allocation of 64 bytes at [0x7f0010] has a space between the
    pointer and the reference chain. *)
Lemma wire_format_without_space_fails :
  text (appended (handleMalloc toy stack 8323088 64) live) <>
  alloc_text_as_specified 8323088 64
    (appended (print_caller toy stack)
              (after (fprintf_out toy (alloc_header 8323088 64)) live)).
Proof. vm_compute. discriminate. Qed.

(** ** Shape of a walk *)

Section Trace.

Implicit Types (m : gmap Z IPCacheEntry) (n : Z) (tr : list Visit) (v : Visit).

Lemma cache_insert_keeps m k e k' e' :
  m !! k = Some e -> cache_insert k' e' m !! k = Some e.
Proof.
  intros H. unfold cache_insert.
  destruct (m !! k') eqn:Hk'; [exact H|].
  rewrite lookup_insert_ne; [exact H|]. intros ->. congruence.
Qed.

(** An entry of the cache is never replaced. *)
Lemma cache_after_keeps tr : forall m k e,
  m !! k = Some e -> cache_after m tr !! k = Some e.
Proof.
  induction tr as [|v tr IH]; intros m k e H; [exact H|].
  apply IH. now apply cache_insert_keeps.
Qed.

Lemma cache_after_app m tr tr' :
  cache_after m (tr ++ tr') = cache_after (cache_after m tr) tr'.
Proof. apply fold_left_app. Qed.

Lemma counter_after_app n tr tr' :
  counter_after n (tr ++ tr') = counter_after (counter_after n tr) tr'.
Proof. apply fold_left_app. Qed.

Lemma seen_visit_of m n f : seen (visit_of m n f) = f.
Proof. unfold visit_of. now destruct (m !! ip f). Qed.

Lemma visit_of_lookup m n f :
  cache_after m [visit_of m n f] !! ip f = Some (entry (visit_of m n f)).
Proof.
  unfold visit_of, cache_after, cache_insert.
  destruct (m !! ip f) as [e|] eqn:H; simpl; rewrite H; [exact H|].
  apply lookup_insert_eq.
Qed.

(** Every visit is the one the loop body makes from the cache and the
    counter the earlier visits left. *)
Lemma trace_lookup fs : forall m n i v,
  trace m n fs !! i = Some v ->
  v = visit_of (cache_after m (take i (trace m n fs)))
               (counter_after n (take i (trace m n fs))) (seen v).
Proof.
  induction fs as [|f outer IH]; intros m n i v; [discriminate|].
  rewrite trace_cons.
  set (v0 := visit_of m n f).
  destruct i as [|i]; simpl.
  - intros [= <-]. subst v0. now rewrite seen_visit_of.
  - destruct (stop (entry v0)); [discriminate|].
    intros H. exact (IH _ _ i v H).
Qed.

(** The visits cover the frames in order, up to the first visit whose
    entry has the stop flag; the walk leaves frames unvisited only
    behind such a visit. *)
Lemma trace_shape fs : forall m n,
  exists rest,
    fs = (map seen (trace m n fs) ++ rest)%list /\
    (forall i v, trace m n fs !! i = Some v -> stop (entry v) = true ->
                 S i = length (trace m n fs)) /\
    (rest <> [] ->
     exists v, last (trace m n fs) = Some v /\ stop (entry v) = true).
Proof.
  induction fs as [|f outer IH]; intros m n.
  - exists []. repeat split; [discriminate|congruence].
  - rewrite trace_cons.
    set (v0 := visit_of m n f).
    destruct (stop (entry v0)) eqn:Hstop.
    + exists outer. split; [simpl; subst v0; now rewrite seen_visit_of|].
      split.
      * intros [|i] v; [reflexivity|discriminate].
      * intros _. exists v0. auto.
    + destruct (IH (cache_after m [v0]) (counter_after n [v0]))
        as (rest & Heq & Hlast & Hcut).
      exists rest. split.
      { cbn [map app]. f_equal; [symmetry; apply seen_visit_of|exact Heq]. }
      split.
      * intros [|i] v; simpl.
        -- intros [= <-]. congruence.
        -- intros Hi Hv. f_equal. exact (Hlast i v Hi Hv).
      * intros Hne. destruct (Hcut Hne) as (v & Hv & Hs).
        exists v. split; [|exact Hs].
        rewrite last_cons, Hv. reflexivity.
Qed.

(** The entry of every visit is the entry the cache holds for its
    instruction pointer when the walk is over. *)
Lemma trace_entries fs m n v :
  v ∈ trace m n fs ->
  cache_after m (trace m n fs) !! ip (seen v) = Some (entry v).
Proof.
  intros Hin. apply list_elem_of_lookup in Hin as (i & Hi).
  pose proof (trace_lookup fs m n i v Hi) as Hv.
  rewrite <- (take_drop_middle _ i v Hi) at 1.
  rewrite cache_after_app.
  change (v :: drop (S i) (trace m n fs)) with ([v] ++ drop (S i) (trace m n fs))%list.
  rewrite cache_after_app.
  apply cache_after_keeps.
  revert Hv. generalize (cache_after m (take i (trace m n fs))).
  generalize (counter_after n (take i (trace m n fs))).
  intros n' m' Hv. remember (seen v) as f eqn:Hf. clear Hf. subst v.
  apply visit_of_lookup.
Qed.

Lemma cache_after_lookup tr : forall m k,
  is_Some (cache_after m tr !! k) <->
  is_Some (m !! k) \/ exists u, u ∈ tr /\ ip (seen u) = k.
Proof.
  induction tr as [|v tr IH]; intros m k.
  - simpl. split; [auto|]. intros [H|(u & Hu & _)]; [exact H|].
    now apply elem_of_nil in Hu.
  - change (cache_after m (v :: tr))
      with (cache_after (cache_insert (ip (seen v)) (entry v) m) tr).
    rewrite IH. unfold cache_insert.
    split.
    + intros [H|(u & Hu & Hk)].
      * destruct (m !! ip (seen v)) eqn:Hv; [auto|].
        destruct (decide (ip (seen v) = k)) as [<-|Hne].
        -- right. exists v. split; [left|reflexivity].
        -- rewrite lookup_insert_ne in H by exact Hne. auto.
      * right. exists u. split; [now right|exact Hk].
    + intros [H|(u & Hu & Hk)].
      * left. destruct (m !! ip (seen v)) eqn:Hv; [exact H|].
        destruct (decide (ip (seen v) = k)) as [<-|Hne].
        -- rewrite lookup_insert_eq. eauto.
        -- now rewrite lookup_insert_ne.
      * apply elem_of_cons in Hu as [->|Hu].
        -- left. destruct (m !! ip (seen v)) eqn:Hv.
           ++ rewrite <- Hk, Hv. eauto.
           ++ rewrite Hk, lookup_insert_eq. eauto.
        -- right. eauto.
Qed.

(** A visit uses the reference form exactly when its instruction
    pointer was in the cache at the start of the walk or was visited
    earlier in the walk; otherwise its entry is a new one, with the
    value the counter has at that point. *)
Lemma trace_cached fs m n i v :
  trace m n fs !! i = Some v ->
  (cached v = true <->
   is_Some (m !! ip (seen v)) \/
   exists u, u ∈ take i (trace m n fs) /\ ip (seen u) = ip (seen v)) /\
  (cached v = false ->
   entry v = classify (counter_after n (take i (trace m n fs))) (seen v)).
Proof.
  intros Hi. pose proof (trace_lookup fs m n i v Hi) as Hv.
  rewrite <- cache_after_lookup.
  revert Hv. generalize (cache_after m (take i (trace m n fs))).
  generalize (counter_after n (take i (trace m n fs))).
  intros n' m' Hv. remember (seen v) as f eqn:Hf. clear Hf. subst v.
  unfold visit_of.
  destruct (m' !! ip f) as [e|] eqn:H; simpl.
  - split; [|discriminate]. split; eauto.
  - split; [|reflexivity]. split; [discriminate|].
    intros [? [=]].
Qed.

(** Without wrap-around the counter advances by one for each new
    entry. *)
Lemma counter_after_count tr : forall n,
  0 <= n -> n + Z.of_nat (length tr) < 2 ^ 64 ->
  counter_after n tr
    = n + Z.of_nat (length (filter (fun v => cached v = false) tr)).
Proof.
  induction tr as [|v tr IH]; intros n Hn Hlen; simpl in *; [lia|].
  change (counter_after n (v :: tr))
    with (counter_after (if cached v then n else wrap64 (n + 1)) tr).
  destruct (cached v) eqn:Hc.
  - rewrite IH by lia. rewrite filter_cons_False by congruence. reflexivity.
  - assert (Hw : wrap64 (n + 1) = n + 1)
      by (unfold wrap64; apply Z.mod_small; lia).
    rewrite Hw, IH by lia. rewrite filter_cons_True by exact Hc. simpl. lia.
Qed.

End Trace.

(** ** Classification of a symbol name *)

Section Names.

Lemma cstr_empty_inv buf :
  cstr buf = "" -> char_at buf 0 = NUL.
Proof.
  destruct buf as [|c rest]; [reflexivity|]. simpl.
  destruct (Ascii.eqb_spec c NUL) as [->|]; [reflexivity|discriminate].
Qed.

Lemma cstr_cons_inv buf c s :
  cstr buf = String c s ->
  exists rest, buf = String c rest /\ c <> NUL /\ cstr rest = s.
Proof.
  destruct buf as [|c' rest]; [discriminate|]. simpl.
  destruct (Ascii.eqb_spec c' NUL) as [->|Hne]; [discriminate|].
  intros [= -> <-]. eauto.
Qed.

Lemma cstr_cons c rest : c <> NUL -> cstr (String c rest) = String c (cstr rest).
Proof.
  intros Hne. simpl. destruct (Ascii.eqb_spec c NUL); [contradiction|reflexivity].
Qed.

Lemma char_at_nul_cstr buf : char_at buf 0 = NUL -> cstr buf = "".
Proof.
  destruct buf as [|c rest]; [reflexivity|]. unfold char_at. simpl.
  intros ->. reflexivity.
Qed.

Lemma char_at_succ c rest i : char_at (String c rest) (S i) = char_at rest i.
Proof. reflexivity. Qed.

Lemma char_at_inv buf c :
  char_at buf 0 = c -> c <> NUL -> exists rest, buf = String c rest.
Proof.
  destruct buf as [|c' rest]; unfold char_at; simpl.
  - intros <- H. now contradiction H.
  - intros <- _. eauto.
Qed.

Ltac peel :=
  match goal with
  | H : char_at ?b 0 = ?c |- _ =>
      is_var b;
      destruct (char_at_inv b c H ltac:(discriminate)) as (? & ->);
      clear H; rewrite ?char_at_succ in *
  end.

(** The test of the loop body holds exactly for the two mangled names
    of [operator new]. *)
Lemma is_operator_new_spec buf :
  is_operator_new buf = true <-> cstr buf = "_Znwm" \/ cstr buf = "_Znam".
Proof.
  unfold is_operator_new. split.
  - intros H.
    repeat (apply andb_prop in H; destruct H as [H ?]).
    repeat match goal with
      | H : Ascii.eqb _ _ = true |- _ => apply Ascii.eqb_eq in H
      end.
    repeat peel.
    match goal with
    | H : (_ || _)%bool = true |- _ =>
        apply orb_prop in H; destruct H as [H|H]; apply Ascii.eqb_eq in H
    end.
    all: repeat peel.
    all: match goal with
         | H : char_at _ 0 = NUL |- _ => apply char_at_nul_cstr in H
         end.
    all: rewrite !cstr_cons by discriminate.
    + left. congruence.
    + right. congruence.
  - intros [H|H].
    all: repeat match goal with
           | H : cstr _ = String _ _ |- _ =>
               apply cstr_cons_inv in H; destruct H as (? & -> & _ & H)
           end.
    all: apply cstr_empty_inv in H.
    all: rewrite !char_at_succ, H; reflexivity.
Qed.

Lemma char_code_zero c : char_code c = 0 <-> c = NUL.
Proof.
  unfold char_code. split.
  - intros H. rewrite <- (ascii_N_embedding c).
    replace (N_of_ascii c) with 0%N by lia. reflexivity.
  - intros ->. reflexivity.
Qed.

Lemma char_code_inj c d : char_code c = char_code d -> c = d.
Proof.
  unfold char_code. intros H.
  rewrite <- (ascii_N_embedding c), <- (ascii_N_embedding d).
  f_equal. lia.
Qed.

(** [strcmp] returns 0 exactly on two buffers that hold the same C
    string. *)
Lemma strcmp_zero a : forall b, strcmp a b = 0 <-> cstr a = cstr b.
Proof.
  assert (Hnz : forall c k, c <> NUL -> k = char_code c -> k <> 0).
  { intros c k Hc -> H0. apply Hc. now apply char_code_zero. }
  induction a as [|x a IH]; intros [|y b]; simpl.
  - tauto.
  - destruct (Ascii.eqb_spec y NUL) as [->|Hy].
    + split; reflexivity.
    + pose proof (Hnz y _ Hy eq_refl). split; [lia|discriminate].
  - destruct (Ascii.eqb_spec x NUL) as [->|Hx].
    + split; reflexivity.
    + pose proof (Hnz x _ Hx eq_refl). split; [lia|discriminate].
  - destruct (Ascii.eqb_spec x NUL) as [->|Hx].
    + destruct (Ascii.eqb_spec y NUL) as [->|Hy].
      * split; reflexivity.
      * pose proof (Hnz y _ Hy eq_refl). split; [lia|discriminate].
    + destruct (Ascii.eqb_spec x y) as [<-|Hxy].
      * destruct (Ascii.eqb_spec x NUL); [contradiction|].
        rewrite IH. split; [intros ->; reflexivity|now intros [=]].
      * split.
        -- intros H. contradiction Hxy. apply char_code_inj. lia.
        -- destruct (Ascii.eqb_spec y NUL); [discriminate|].
           intros [= ? _]. contradiction.
Qed.

(** The second test holds exactly for [main] and for the function
    that runs the static initialisers of its file. *)
Lemma is_entry_point_spec buf :
  is_entry_point buf = true <->
  cstr buf = "main" \/ cstr buf = "_GLOBAL__sub_I_main".
Proof.
  unfold is_entry_point. rewrite orb_true_iff, !Z.eqb_eq, !strcmp_zero.
  reflexivity.
Qed.

(** A name of [operator new] is not an entry point, so that for a new
    entry the stop flag is the second test alone. *)
Lemma classify_flags n f :
  skip (classify n f) = is_operator_new (name f) /\
  stop (classify n f) = is_entry_point (name f).
Proof.
  split; [reflexivity|]. simpl.
  destruct (is_operator_new (name f)) eqn:Hs; [|reflexivity].
  apply is_operator_new_spec in Hs. simpl. symmetry.
  apply not_true_is_false. rewrite is_entry_point_spec.
  destruct Hs as [-> | ->]; intros [H|H]; discriminate H.
Qed.

End Names.

(** ** Properties of the stack walk *)

Section Capture.

Context (P : Platform).

Implicit Types (m : gmap Z IPCacheEntry) (n : Z) (tr : list Visit) (v : Visit).

(** The walk goes on behind every visit whose entry lacks the stop
    flag, as long as there is a frame to go to. *)
Lemma trace_continues fs m n i v g :
  trace m n fs !! i = Some v -> stop (entry v) = false ->
  fs !! S i = Some g ->
  exists u, trace m n fs !! S i = Some u /\ seen u = g.
Proof.
  intros Hi Hstop Hg.
  destruct (trace_shape fs m n) as (rest & Heq & _ & Hcut).
  set (tr := trace m n fs) in *.
  assert (Hlen : (S i < length tr)%nat).
  { apply lookup_lt_Some in Hi as Hlt.
    destruct (decide (S i < length tr)%nat) as [|Hge]; [assumption|exfalso].
    assert (Hlast : last tr = Some v).
    { rewrite last_lookup. replace (pred (length tr)) with i by lia. exact Hi. }
    assert (Hrest : rest <> []).
    { intros ->. rewrite app_nil_r in Heq.
      apply lookup_lt_Some in Hg. rewrite Heq, length_map in Hg. lia. }
    destruct (Hcut Hrest) as (v' & Hv' & Hs). congruence. }
  destruct (lookup_lt_is_Some_2 tr (S i) Hlen) as (u & Hu).
  exists u. split; [exact Hu|].
  rewrite Heq, lookup_app_l in Hg by (rewrite length_map; exact Hlen).
  rewrite list_lookup_fmap, Hu in Hg. now injection Hg.
Qed.

(** Walking frames whose names are those of the table keeps the cache
    in agreement with the table. *)
Lemma trace_built sym fs : forall m n,
  built_from sym m -> (forall f, f ∈ fs -> name f = sym (ip f)) ->
  built_from sym (cache_after m (trace m n fs)).
Proof.
  induction fs as [|f outer IH]; intros m n Hm Hfs; [exact Hm|].
  rewrite trace_cons.
  set (v0 := visit_of m n f).
  assert (Hm1 : built_from sym (cache_after m [v0])).
  { subst v0. unfold visit_of, cache_after, cache_insert.
    destruct (m !! ip f) as [e|] eqn:Hlk; simpl; rewrite Hlk; [exact Hm|].
    intros k e. destruct (decide (ip f = k)) as [<-|Hne].
    - rewrite lookup_insert_eq. intros [= <-].
      rewrite <- (Hfs f) by left. apply classify_flags.
    - rewrite lookup_insert_ne by exact Hne. apply Hm. }
  destruct (stop (entry v0)); [exact Hm1|].
  change (cache_after m (v0 :: ?t)) with (cache_after (cache_after m [v0]) t).
  apply IH; [exact Hm1|]. intros g Hg. apply Hfs. now right.
Qed.

(** What [print_caller] does, for a thread that has its session. *)
Lemma print_caller_walk (c : Cursor) (st : State P) td :
  threadData st = Some td ->
  let tr := trace (cache_of st) (next_cache_id st) (walked c) in
  exists st',
    print_caller P c st = Returned tt st' /\
    stderr st' = stderr st /\ in_handler st' = in_handler st /\
    written st' = (written st ++ flat_map emitted tr)%list /\
    cache_of st' = cache_after (cache_of st) tr /\
    next_cache_id st' = counter_after (next_cache_id st) tr.
Proof.
  intros Htd tr. subst tr.
  assert (Hm : cache_of st = ipCache td) by (unfold cache_of; now rewrite Htd).
  assert (Hw : written st = f_written (out td)) by (unfold written; now rewrite Htd).
  rewrite Hm, Hw.
  destruct (print_caller_evolves P c st td Htd) as (st' & Hrun & Hev).
  destruct Hev as (td0 & td' & Ha & Hb & ? & ? & ? & ? & ? & ? & ? & ? & ? & ? & ? & ?).
  rewrite Htd in Ha. injection Ha as <-.
  exists st'. unfold cache_of, written. rewrite Hb.
  repeat split; assumption.
Qed.

Lemma emitted_origin tr chunk :
  chunk ∈ flat_map emitted tr ->
  exists v, v ∈ tr /\ skip (entry v) = false /\
    (chunk = definition_record (entry v) (seen v) \/
     chunk = reference_record (entry v)).
Proof.
  intros Hin. apply list_elem_of_In, in_flat_map in Hin as (v & Hv & Hc).
  exists v. split; [now apply list_elem_of_In|].
  unfold emitted in Hc. destruct (skip (entry v)); [destruct Hc|].
  split; [reflexivity|].
  destruct (cached v); destruct Hc as [<-|[]]; auto.
Qed.

(** C5 (skip-frame exclusion). The loop body sets the skip flag of a
    new entry exactly when the symbol name is [_Znwm] or [_Znam].  In
    every walk, the visits cover the frames in order, and frames are
    left unvisited only behind a visit whose entry has the stop flag;
    the entry of a visit is the one the cache holds for its frame; a
    visit whose
    entry has the skip flag writes nothing, so that every element of
    the chain written is the definition or the reference record of a
    visit whose entry lacks the flag; a new entry with the skip flag
    never has the stop flag; and behind a visit without the stop flag
    the next frame is visited.  When the names of the frames and the
    flags of the cache follow one table of symbols, the flags of every
    visit are those of the name of its frame, and a frame of
    [operator new] never ends the walk. *)
Theorem skip_frame_exclusion (c : Cursor) (st : State P) td :
  threadData st = Some td ->
  (forall buf,
     is_operator_new buf = true <-> cstr buf = "_Znwm" \/ cstr buf = "_Znam") /\
  exists tr rest st',
    print_caller P c st = Returned tt st' /\
    walked c = (map seen tr ++ rest)%list /\
    (rest <> [] -> exists v, last tr = Some v /\ stop (entry v) = true) /\
    written st' = (written st ++ flat_map emitted tr)%list /\
    (forall v, v ∈ tr -> cache_of st' !! ip (seen v) = Some (entry v)) /\
    (forall v, v ∈ tr -> cached v = false ->
       skip (entry v) = is_operator_new (name (seen v))) /\
    (forall v, v ∈ tr -> skip (entry v) = true -> emitted v = []) /\
    (forall chunk, chunk ∈ flat_map emitted tr ->
       exists v, v ∈ tr /\ skip (entry v) = false /\
         (chunk = definition_record (entry v) (seen v) \/
          chunk = reference_record (entry v))) /\
    (forall v, v ∈ tr -> cached v = false -> skip (entry v) = true ->
       stop (entry v) = false) /\
    (forall i v g, tr !! i = Some v -> stop (entry v) = false ->
       walked c !! S i = Some g ->
       exists u, tr !! S i = Some u /\ seen u = g) /\
    (forall sym, built_from sym (cache_of st) ->
       (forall f, f ∈ walked c -> name f = sym (ip f)) ->
       forall v, v ∈ tr ->
         skip (entry v) = is_operator_new (name (seen v)) /\
         (is_operator_new (name (seen v)) = true -> stop (entry v) = false)).
Proof.
  intros Htd. split; [exact is_operator_new_spec|].
  destruct (print_caller_walk c st td Htd) as (st' & Hrun & _ & _ & Hw & Hm & _).
  set (tr := trace (cache_of st) (next_cache_id st) (walked c)) in *.
  destruct (trace_shape (walked c) (cache_of st) (next_cache_id st))
    as (rest & Heq & _ & Hcut).
  assert (Hnew : forall v, v ∈ tr -> cached v = false ->
            exists n, entry v = classify n (seen v)).
  { intros v Hv Hc. apply list_elem_of_lookup in Hv as (i & Hi).
    destruct (trace_cached _ _ _ i v Hi) as (_ & Hcl). eauto. }
  exists tr, rest, st'.
  split; [exact Hrun|]. split; [exact Heq|]. split; [exact Hcut|].
  split; [exact Hw|].
  split. { intros v Hv. rewrite Hm. now apply trace_entries. }
  split. { intros v Hv Hc. destruct (Hnew v Hv Hc) as (n & ->). reflexivity. }
  split. { intros v _ Hs. unfold emitted. now rewrite Hs. }
  split. { apply emitted_origin. }
  split.
  { intros v Hv Hc Hs. destruct (Hnew v Hv Hc) as (n & Hn).
    rewrite Hn in *. simpl in *. now rewrite Hs. }
  split. { intros i v g. apply trace_continues. }
  intros sym Hsym Hfs v Hv.
  pose proof (trace_built sym (walked c) (cache_of st) (next_cache_id st) Hsym Hfs)
    as Hbuilt.
  destruct (Hbuilt _ _ (trace_entries _ _ _ v Hv)) as (Hs & Ht).
  assert (Hname : name (seen v) = sym (ip (seen v))).
  { apply Hfs. rewrite Heq. apply elem_of_app. left.
    apply list_elem_of_fmap. eauto. }
  rewrite Hname, Hs. split; [reflexivity|].
  intros Hop. rewrite Ht. apply not_true_is_false. intros Hep.
  apply is_operator_new_spec in Hop. apply is_entry_point_spec in Hep.
  destruct Hop as [Hop|Hop]; rewrite Hop in Hep; destruct Hep; discriminate.
Qed.

(** C6 (stop-frame termination and silent exhaustion). The loop body
    sets the stop flag of a new entry exactly when the symbol name is
    [main] or [_GLOBAL__sub_I_main].  Every walk returns normally and
    writes nothing to the standard error stream, whatever code the
    failing [unw_step] returns; with fewer than two frames to step
    over it changes nothing at all.  The visits cover the frames in
    order and end with the first one whose entry has the stop flag:
    that visit writes its record unless its entry has the skip flag,
    no chunk comes from a frame behind it, and frames are left
    unvisited only behind such a visit.  When the names of the frames
    and the flags of the cache follow one table of symbols, the stop
    flag of every visit is the test on the name of its frame. *)
Theorem stop_frame_termination (c : Cursor) (st : State P) td :
  threadData st = Some td ->
  (forall buf,
     is_entry_point buf = true <->
     cstr buf = "main" \/ cstr buf = "_GLOBAL__sub_I_main") /\
  (forall e,
     print_caller P {| frames := frames c; ending := e |} st
       = print_caller P c st) /\
  ((length (frames c) < 2)%nat -> print_caller P c st = Returned tt st) /\
  exists tr rest st',
    print_caller P c st = Returned tt st' /\
    stderr st' = stderr st /\
    walked c = (map seen tr ++ rest)%list /\
    written st' = (written st ++ flat_map emitted tr)%list /\
    (forall v, v ∈ tr -> cache_of st' !! ip (seen v) = Some (entry v)) /\
    (forall v, v ∈ tr -> cached v = false ->
       stop (entry v) = is_entry_point (name (seen v))) /\
    (forall i v, tr !! i = Some v -> stop (entry v) = true ->
       S i = length tr) /\
    (rest <> [] -> exists v, last tr = Some v /\ stop (entry v) = true) /\
    (forall v, v ∈ tr -> skip (entry v) = false ->
       exists chunk, emitted v = [chunk] /\
         (chunk = definition_record (entry v) (seen v) \/
          chunk = reference_record (entry v))) /\
    (forall sym, built_from sym (cache_of st) ->
       (forall f, f ∈ walked c -> name f = sym (ip f)) ->
       forall v, v ∈ tr -> stop (entry v) = is_entry_point (name (seen v))).
Proof.
  intros Htd. split; [exact is_entry_point_spec|].
  split.
  { intros e. unfold print_caller. rewrite !skip_frames_two. simpl.
    destruct (frames c) as [|a [|b outer]]; reflexivity. }
  split.
  { intros Hlen. unfold print_caller. rewrite skip_frames_two.
    destruct (frames c) as [|a [|b outer]]; simpl in *; [reflexivity..|lia]. }
  destruct (print_caller_walk c st td Htd) as (st' & Hrun & Herr & _ & Hw & Hm & _).
  set (tr := trace (cache_of st) (next_cache_id st) (walked c)) in *.
  destruct (trace_shape (walked c) (cache_of st) (next_cache_id st))
    as (rest & Heq & Hlast & Hcut).
  exists tr, rest, st'.
  split; [exact Hrun|]. split; [exact Herr|]. split; [exact Heq|].
  split; [exact Hw|].
  split. { intros v Hv. rewrite Hm. now apply trace_entries. }
  split.
  { intros v Hv Hc. apply list_elem_of_lookup in Hv as (i & Hi).
    destruct (trace_cached _ _ _ i v Hi) as (_ & Hcl).
    rewrite (Hcl Hc). apply classify_flags. }
  split; [exact Hlast|]. split; [exact Hcut|].
  split.
  { intros v _ Hs. unfold emitted. rewrite Hs.
    destruct (cached v); eexists; split; eauto. }
  intros sym Hsym Hfs v Hv.
  pose proof (trace_built sym (walked c) (cache_of st) (next_cache_id st) Hsym Hfs)
    as Hbuilt.
  destruct (Hbuilt _ _ (trace_entries _ _ _ v Hv)) as (_ & Ht).
  rewrite Ht. f_equal. symmetry. apply Hfs.
  rewrite Heq. apply elem_of_app. left. apply list_elem_of_fmap. eauto.
Qed.

(** A call that returns leaves every entry of the cache as it was. *)
Lemma run_call_keeps_cache c call (st st' : State P) res k e :
  bootstraps call st ->
  run_call P c call st = Returned res st' ->
  cache_of st !! k = Some e -> cache_of st' !! k = Some e.
Proof.
  intros Hboot Hrun Hk.
  destruct (in_handler st) eqn:Hin.
  - rewrite (run_call_guarded P c call st Hboot Hin) in Hrun.
    injection Hrun as _ <-. exact Hk.
  - destruct (session_ready st) eqn:Hok.
    + destruct (run_call_traced P c call st Hboot Hin Hok)
        as (st2 & Hrun2 & _ & _ & _ & Hm & _).
      rewrite Hrun2 in Hrun. injection Hrun as _ <-.
      rewrite Hm. now apply cache_after_keeps.
    + destruct (run_call_refused P c call st Hboot Hin Hok) as (st2 & Hrun2).
      congruence.
Qed.

(** C7 (frame identifier stability and cached output form). In every
    walk the visits cover the frames in order, and frames are left
    unvisited only behind a visit whose entry has the stop flag.  An
    entry of the cache is never changed, neither by the walk
    nor by a later call of an entry point, and the entry of a visit is
    the one the cache holds for its instruction pointer, so that all
    the visits of one instruction pointer carry the identifier of the
    first; a visit is served from the cache exactly when its
    instruction pointer was in the cache at the start of the walk or
    was visited earlier in it, and then it writes, unless skipped, the
    reference record, the identifier in decimal and [';'], and not the
    definition; a visit that is not served from the cache gets a new
    entry whose identifier is the value of [next_cache_id] at that
    point, the counter moves on by one, and the visit writes, unless
    skipped, the definition record. *)
Theorem frame_identifier_stability (c : Cursor) (st : State P) td :
  threadData st = Some td ->
  exists tr rest st',
    print_caller P c st = Returned tt st' /\
    walked c = (map seen tr ++ rest)%list /\
    (rest <> [] -> exists v, last tr = Some v /\ stop (entry v) = true) /\
    written st' = (written st ++ flat_map emitted tr)%list /\
    next_cache_id st' = counter_after (next_cache_id st) tr /\
    (forall k e, cache_of st !! k = Some e -> cache_of st' !! k = Some e) /\
    (forall c' call res st2 k e, bootstraps call st' ->
       run_call P c' call st' = Returned res st2 ->
       cache_of st' !! k = Some e -> cache_of st2 !! k = Some e) /\
    (forall v, v ∈ tr -> cache_of st' !! ip (seen v) = Some (entry v)) /\
    (forall v e, v ∈ tr -> cache_of st !! ip (seen v) = Some e -> entry v = e) /\
    (forall i v, tr !! i = Some v ->
       (cached v = true <->
        is_Some (cache_of st !! ip (seen v)) \/
        exists u, u ∈ take i tr /\ ip (seen u) = ip (seen v))) /\
    (forall v, v ∈ tr -> skip (entry v) = false ->
       emitted v =
         if cached v then [fmt_lu (id (entry v)) +:+ ";"]
         else [definition_record (entry v) (seen v)]) /\
    (forall i v, tr !! i = Some v -> cached v = false ->
       id (entry v) = counter_after (next_cache_id st) (take i tr) /\
       counter_after (next_cache_id st) (take (S i) tr)
         = wrap64 (id (entry v) + 1)) /\
    (forall i v, tr !! i = Some v -> cached v = true ->
       counter_after (next_cache_id st) (take (S i) tr)
         = counter_after (next_cache_id st) (take i tr)) /\
    (0 <= next_cache_id st ->
     next_cache_id st + Z.of_nat (length tr) < 2 ^ 64 ->
     forall i,
       counter_after (next_cache_id st) (take i tr) =
         next_cache_id st +
         Z.of_nat (length (filter (fun v => cached v = false) (take i tr)))).
Proof.
  intros Htd.
  destruct (print_caller_walk c st td Htd) as (st' & Hrun & _ & _ & Hw & Hm & Hn).
  set (tr := trace (cache_of st) (next_cache_id st) (walked c)) in *.
  destruct (trace_shape (walked c) (cache_of st) (next_cache_id st))
    as (rest & Heq & _ & Hcut).
  assert (Hstep : forall i v, tr !! i = Some v ->
            take (S i) tr = (take i tr ++ [v])%list).
  { intros i v Hi. now apply take_S_r. }
  exists tr, rest, st'.
  split; [exact Hrun|]. split; [exact Heq|]. split; [exact Hcut|].
  split; [exact Hw|].
  split; [exact Hn|].
  split. { intros k e Hk. rewrite Hm. now apply cache_after_keeps. }
  split. { intros c' call res st2 k e. apply run_call_keeps_cache. }
  split. { intros v Hv. rewrite Hm. now apply trace_entries. }
  split.
  { intros v e Hv Hk.
    pose proof (trace_entries _ _ _ v Hv) as Hv'.
    pose proof (cache_after_keeps tr _ _ _ Hk) as Hk'.
    unfold tr in Hk'. congruence. }
  split. { intros i v Hi. now apply trace_cached. }
  split. { intros v _ Hs. unfold emitted. now rewrite Hs. }
  split.
  { intros i v Hi Hc. destruct (trace_cached _ _ _ i v Hi) as (_ & Hcl).
    rewrite (Hstep i v Hi), counter_after_app, (Hcl Hc).
    split; [reflexivity|]. unfold counter_after at 1. simpl. now rewrite Hc. }
  split.
  { intros i v Hi Hc.
    rewrite (Hstep i v Hi), counter_after_app.
    unfold counter_after at 1. simpl. now rewrite Hc. }
  intros H0 Hlen i. apply counter_after_count; [exact H0|].
  rewrite length_take. lia.
Qed.

End Capture.

(** ** The thread session *)

Section ThreadSession.

Context (P : Platform).

(** The first use of [threadData] in a thread: the constructor draws
    the thread id from [next_thread_id], asks [fopen] for the file
    named by the base path, the process id, a dot and the thread id,
    with the mode ["wa"], and restores the guard; a refused [fopen] is
    reported on the standard error stream and ends the process with
    status 1. *)
Lemma thread_session_opened (st : State P) :
  threadData st = None ->
  (fopen_granted P (session_path st) "wa" = true ->
   exists td st',
     the_threadData P st = Returned td st' /\
     threadData st' = Some td /\
     thread_id td = next_thread_id st /\
     next_thread_id st' = wrap64 (next_thread_id st + 1) /\
     f_path (out td) =
       env P "DUMP_MALLOC_TRACE_OUTPUT" +:+ to_string_int (getpid P)
         +:+ "." +:+ to_string_ulong (thread_id td) /\
     f_mode (out td) = "wa" /\ f_written (out td) = [] /\
     in_handler st' = in_handler st /\ stderr st' = stderr st) /\
  (fopen_granted P (session_path st) "wa" = false ->
   exists st',
     the_threadData P st = Exited 1 st' /\
     stderr st' =
       (stderr st ++ ["Failed to open output file: " +:+ session_path st
                        +:+ newline])%list).
Proof.
  intros Hnone. split; intros Hopen.
  - assert (Hok : session_ready st = true)
      by (unfold session_ready; now rewrite Hnone).
    destruct (the_threadData_ready P st Hok) as (td & Hrun & Htd & _).
    exists td, (opened st). split; [exact Hrun|]. split; [exact Htd|].
    unfold opened in *. rewrite Hnone in *. simpl in Htd.
    injection Htd as <-. simpl. auto 10.
  - apply the_threadData_refused. unfold session_ready. now rewrite Hnone.
Qed.

End ThreadSession.

(** C8 (thread session file contract), at the first traced call of a
    thread whose output file exists already. The file is the one named
    by the base path, the process id, a dot and the thread id, and the
    mode given to [fopen] is ["wa"], which glibc reads as [w]: the
    file is truncated, not appended to, and what it held is lost. *)
Lemma session_file_truncated :
  let st' := after (malloc toy stack 64) fresh in
  let earlier := "-0x7f0000" +:+ newline in
  option_map (fun td => (f_path (out td), f_mode (out td),
                         mode_kind (f_mode (out td)),
                         file_content earlier (out td)))
             (threadData st')
  = Some ("/tmp/trace.42.0", "wa", Some open_truncate,
          "+64:0x7f0010 1=c8@B+0x20;2=12c@main+0x0;" +:+ newline).
Proof. vm_compute. reflexivity. Qed.

(** ** The tracer at work on the small platform *)

(** The run of section 8 of the specification: 64 bytes allocated at
    [0x7f0010] from [A], called by [B], called by [main], then freed,
    then allocated again from the same place. *)
Example end_to_end :
  written (after (r <- malloc toy plain_stack 64;;
                  free toy r;;
                  malloc toy plain_stack 64) fresh)
  = [ "+64:0x7f0010 "; "0=64@A+0x10;"; "1=c8@B+0x20;"; "2=12c@main+0x0;"; newline;
      "-0x7f0010" +:+ newline;
      "+64:0x7f0050 "; "0;"; "1;"; "2;"; newline ].
Proof. vm_compute. reflexivity. Qed.

(** A thread whose output file is refused ends the process at its
    first traced call. *)
Example refused_session_exits :
  exit_status (malloc toy stack 64 unlucky) = Some 1 /\
  stderr (after (malloc toy stack 64) unlucky)
    = ["Failed to open output file: /tmp/trace.42.7" +:+ newline].
Proof. split; vm_compute; reflexivity. Qed.

(** A [calloc] that [dlsym] makes while [init] runs is served by
    [dummy_calloc] and leaves no record. *)
Example calloc_during_init :
  returned (calloc toy stack 1 32 bootstrapping) = Some 4096 /\
  dummy_offset (after (calloc toy stack 1 32) bootstrapping) = 32 /\
  written (after (calloc toy stack 1 32) bootstrapping) = [] /\
  heap (after (calloc toy stack 1 32) bootstrapping) = heap bootstrapping.
Proof. repeat split; vm_compute; reflexivity. Qed.

(** A [malloc] made while [init] runs, before [real_malloc] is set,
    ends the process. *)
Example malloc_during_init :
  exit_status (malloc toy stack 32 bootstrapping) = Some 1 /\
  stderr (after (malloc toy stack 32) bootstrapping)
    = ["initialization recursion detected" +:+ newline].
Proof. split; vm_compute; reflexivity. Qed.

(** ** The theorems at work on the small platform *)

Lemma live_built_from_symbols : built_from symbols (cache_of live).
Proof.
  intros k e H.
  change (cache_of live) with (ipCache live_session) in H.
  unfold live_session in H. simpl in H.
  apply lookup_singleton_Some in H as [<- <-].
  split; reflexivity.
Qed.

Lemma stack_named_by_symbols f :
  f ∈ walked stack -> name f = symbols (ip f).
Proof.
  unfold walked, stack. simpl. intros Hf.
  repeat (apply elem_of_cons in Hf as [->|Hf]; [reflexivity|]).
  now apply elem_of_nil in Hf.
Qed.

Lemma allocator_transparency_witness :
  stand_in (call_calloc 4 16) (boot fresh) = false /\
  match run_call toy stack (call_calloc 4 16) fresh with
  | Returned res st' =>
      res = (true_call toy (call_calloc 4 16) (heap fresh)).1 /\
      heap st' = (true_call toy (call_calloc 4 16) (heap fresh)).2
  | Exited code _ =>
      code = 1 /\
      (unset (call_calloc 4 16) (boot fresh) = true /\
       (in_handler fresh = true \/ symbols_found toy = false) \/
       in_handler fresh = false /\ session_ready fresh = false)
  | Faulted _ => False
  end.
Proof.
  split; [reflexivity|].
  exact (allocator_transparency toy stack (call_calloc 4 16) fresh eq_refl).
Defined.


Lemma event_wire_format_witness :
  session_ready fresh = true /\
  text (appended (handleMalloc toy stack 8323088 64) fresh)
    = "+64:0x7f0010 1=c8@B+0x20;2=12c@main+0x0;" +:+ newline /\
  text (appended (handleFree toy 8323088) fresh) = "-0x7f0010" +:+ newline.
Proof.
  split; [reflexivity|].
  destruct (event_wire_format toy stack 8323088 64 fresh eq_refl)
    as (_ & Halloc & _ & _ & Hfree & _).
  split; [|exact Hfree].
  rewrite Halloc. vm_compute. reflexivity.
Defined.

Lemma realloc_decomposition_witness :
  bootstraps (call_realloc 8323088 128) live /\
  in_handler live = false /\ session_ready live = true /\
  exists st' elems,
    realloc toy stack 8323088 128 live = Returned 8323088 st' /\
    Forall chain_element elems /\
    written st' =
      (written live ++ free_record 8323088 ++ alloc_record 8323088 128 elems)%list.
Proof.
  assert (H : bootstraps (call_realloc 8323088 128) live) by (left; reflexivity).
  split; [exact H|]. split; [reflexivity|]. split; [reflexivity|].
  exact (realloc_decomposition toy stack 8323088 128 live H eq_refl eq_refl).
Defined.

Lemma skip_frame_exclusion_witness :
  threadData live = Some live_session /\
  exists tr rest st',
    print_caller toy stack live = Returned tt st' /\
    walked stack = (map seen tr ++ rest)%list /\
    written st' = (written live ++ flat_map emitted tr)%list /\
    (forall v, v ∈ tr ->
       skip (entry v) = is_operator_new (name (seen v)) /\
       (is_operator_new (name (seen v)) = true -> stop (entry v) = false)).
Proof.
  split; [reflexivity|].
  destruct (skip_frame_exclusion toy stack live live_session eq_refl)
    as (_ & tr & rest & st' & Hrun & Heq & _ & Hw & _ & _ & _ & _ & _ & _ & Hsym).
  exists tr, rest, st'. split; [exact Hrun|]. split; [exact Heq|].
  split; [exact Hw|].
  exact (Hsym symbols live_built_from_symbols stack_named_by_symbols).
Defined.

Lemma stop_frame_termination_witness :
  threadData live = Some live_session /\
  exists tr rest st',
    print_caller toy stack live = Returned tt st' /\
    stderr st' = stderr live /\
    walked stack = (map seen tr ++ rest)%list /\
    (forall i v, tr !! i = Some v -> stop (entry v) = true -> S i = length tr) /\
    (forall v, v ∈ tr -> stop (entry v) = is_entry_point (name (seen v))).
Proof.
  split; [reflexivity|].
  destruct (stop_frame_termination toy stack live live_session eq_refl)
    as (_ & _ & _ & tr & rest & st' & Hrun & Herr & Heq & _ & _ & _ & Hlast
        & _ & _ & Hsym).
  exists tr, rest, st'. split; [exact Hrun|]. split; [exact Herr|].
  split; [exact Heq|]. split; [exact Hlast|].
  exact (Hsym symbols live_built_from_symbols stack_named_by_symbols).
Defined.

Lemma frame_identifier_stability_witness :
  threadData live = Some live_session /\
  exists tr rest st',
    print_caller toy stack live = Returned tt st' /\
    walked stack = (map seen tr ++ rest)%list /\
    (forall k e, cache_of live !! k = Some e -> cache_of st' !! k = Some e).
Proof.
  split; [reflexivity|].
  destruct (frame_identifier_stability toy stack live live_session eq_refl)
    as (tr & rest & st' & Hrun & Heq & _ & _ & _ & Hkeep & _).
  exists tr, rest, st'. split; [exact Hrun|]. split; [exact Heq|exact Hkeep].
Defined.

Lemma posix_memalign_failure_recorded_witness :
  bootstraps (call_posix_memalign 0 64 8192) live /\
  in_handler live = false /\ session_ready live = true /\
  exists st' elems,
    posix_memalign toy stack 0 64 8192 live = Returned (12, 0) st' /\
    Forall chain_element elems /\
    written st' = (written live ++ alloc_record 0 8192 elems)%list.
Proof.
  assert (H : bootstraps (call_posix_memalign 0 64 8192) live)
    by (left; reflexivity).
  split; [exact H|]. split; [reflexivity|]. split; [reflexivity|].
  exact (posix_memalign_failure_recorded toy stack 0 64 8192 live
           H eq_refl eq_refl).
Defined.

Lemma calloc_records_wrapped_product_witness :
  bootstraps (call_calloc (2 ^ 32) (2 ^ 32)) live /\
  in_handler live = false /\ session_ready live = true /\
  exists st' elems,
    calloc toy stack (2 ^ 32) (2 ^ 32) live = Returned 8323088 st' /\
    written st' =
      (written live ++ ("+0:0x7f0010 " :: elems ++ [newline]))%list /\
    fmt_ld (wrap64 (2 ^ 32 * 2 ^ 32)) <> dec_digits (2 ^ 32 * 2 ^ 32).
Proof.
  assert (H : bootstraps (call_calloc (2 ^ 32) (2 ^ 32)) live)
    by (left; reflexivity).
  split; [exact H|]. split; [reflexivity|]. split; [reflexivity|].
  destruct (calloc_records_wrapped_product toy stack (2 ^ 32) (2 ^ 32) live
              H eq_refl eq_refl)
    as (st' & elems & Hrun & _ & Hw & Hover).
  exists st', elems. split; [exact Hrun|]. split; [exact Hw|].
  apply Hover; lia.
Defined.

(** ** Further properties: bootstrap *)

Section Bootstrapping.

Context (P : Platform).

(** X2 (the diagnostic of [init]). Entered with the guard free, [init]
    looks the seven names up in the order [calloc], [malloc], [free],
    [realloc], [posix_memalign], [valloc], [aligned_alloc]: it ends
    the process at the first one [dlsym] does not find, with status 1
    and one line on the standard error stream that names it, and it
    returns when there is none.  Entered with the guard engaged it
    reports a recursion instead, whatever [dlsym] would find. *)
Theorem init_reports_first_missing (st : State P) :
  (in_handler st = false ->
   match find (fun symbol => negb (dlsym_next P symbol)) looked_up with
   | Some symbol =>
       exists st',
         init P st = Exited 1 st' /\
         stderr st' =
           (stderr st ++
            ["could not find original function " +:+ symbol +:+ newline])%list
   | None => exists st', init P st = Returned tt st' /\ stderr st' = stderr st
   end) /\
  (in_handler st = true ->
   exists st',
     init P st = Exited 1 st' /\
     stderr st' =
       (stderr st ++ ["initialization recursion detected" +:+ newline])%list).
Proof.
  split; [|apply init_recursion].
  intros Hin. unfold looked_up. cbn [find].
  unfold init, bind, gets. rewrite Hin.
  unfold assign, modify, findReal, bind, eprintf, exit, modify, ret.
  repeat match goal with
    | |- context [dlsym_next P ?sym] => destruct (dlsym_next P sym)
    end; cbn [negb]; eexists; split; reflexivity.
Qed.

(** X3 ([calloc] while [init] runs). A [calloc] that finds
    [real_calloc] set to [&dummy_calloc] with the guard engaged, as
    the one [dlsym] makes, is answered from the static buffer alone:
    when it returns, the address is the start of the buffer moved on
    by eight bytes for each unit of the old offset, the offset has
    grown by the product of the arguments and stays below 1024, and
    the next allocator, the output file, the guard and the pointers
    are as they were; when it does not, the offset has reached 1024
    and the process ends with status 1. *)
Theorem calloc_served_by_stand_in (c : Cursor) (num size : Z) (st : State P) :
  real_calloc (boot st) = calloc_dummy -> in_handler st = true ->
  let offset := wrap64 (dummy_offset st + wrap64 (num * size)) in
  match calloc P c num size st with
  | Returned r st' =>
      r = wrap64 (dummy_buf P + 8 * dummy_offset st) /\
      st' = set_dummy_offset P offset st /\ offset < 1024
  | Exited code st' =>
      code = 1 /\ 1024 <= offset /\ heap st' = heap st /\
      threadData st' = threadData st
  | Faulted _ => False
  end.
Proof.
  intros Hptr Hin offset. subst offset.
  unfold calloc, call_real_calloc, dummy_calloc, bind, gets, modify, ret.
  rewrite Hptr. simpl. rewrite Hptr. unfold MAX_SIZE.
  destruct (wrap64 (dummy_offset st + wrap64 (num * size)) >=? 1024) eqn:Hfull;
    simpl.
  - repeat split; auto. lia.
  - rewrite Hin. repeat split; auto. lia.
Qed.

Lemma dummy_calloc_fits (num size : Z) (st : State P) :
  0 <= dummy_offset st < 1024 -> 0 <= num * size < 2 ^ 63 ->
  dummy_offset st + num * size < 1024 ->
  dummy_calloc P num size st =
    Returned (wrap64 (dummy_buf P + 8 * dummy_offset st))
             (set_dummy_offset P (dummy_offset st + num * size) st).
Proof.
  intros Ho Hp Hfit.
  unfold dummy_calloc, bind, gets, modify, ret, MAX_SIZE, wrap64.
  rewrite (Z.mod_small (num * size)) by lia.
  rewrite (Z.mod_small (dummy_offset st + num * size)) by lia.
  destruct (dummy_offset st + num * size >=? 1024) eqn:Hfull; [lia|reflexivity].
Qed.

Lemma dummy_calloc_full (num size : Z) (st : State P) :
  0 <= dummy_offset st < 1024 -> 0 <= num * size < 2 ^ 63 ->
  1024 <= dummy_offset st + num * size ->
  exists st', dummy_calloc P num size st = Exited 1 st'.
Proof.
  intros Ho Hp Hfull.
  unfold dummy_calloc, bind, gets, modify, ret, MAX_SIZE, wrap64.
  rewrite (Z.mod_small (num * size)) by lia.
  rewrite (Z.mod_small (dummy_offset st + num * size)) by lia.
  destruct (dummy_offset st + num * size >=? 1024) eqn:Hge; [|lia].
  eexists. reflexivity.
Qed.

Lemma requested_nonneg (reqs : list (Z * Z)) :
  Forall (fun r => 0 <= r.1 * r.2 < 2 ^ 63) reqs -> 0 <= requested reqs.
Proof.
  induction 1 as [|r reqs Hr _ IH]; simpl; [lia|].
  unfold requested in *. simpl. lia.
Qed.

(** X4 (capacity of the stand-in). Serving one after the other
    requests none of which asks for [2^63] bytes or more,
    [dummy_calloc] returns for all of them exactly when the old offset
    and the bytes asked for stay together below 1024, so that a
    request that would fill the buffer to the last unit is refused;
    the offset then has grown by the bytes asked for; and otherwise
    the process ends with status 1. *)
Theorem stand_in_capacity (reqs : list (Z * Z)) : forall (st : State P),
  0 <= dummy_offset st < 1024 ->
  Forall (fun r => 0 <= r.1 * r.2 < 2 ^ 63) reqs ->
  if dummy_offset st + requested reqs <? 1024
  then exists rs st',
         dummy_callocs P reqs st = Returned rs st' /\
         length rs = length reqs /\
         dummy_offset st' = dummy_offset st + requested reqs /\
         heap st' = heap st /\ threadData st' = threadData st
  else exists st', dummy_callocs P reqs st = Exited 1 st'.
Proof.
  induction reqs as [|[num size] reqs IH]; intros st Ho Hreqs.
  - unfold requested. simpl. rewrite Z.add_0_r.
    destruct (dummy_offset st <? 1024) eqn:Hlt; [|lia].
    exists [], st. auto.
  - apply Forall_cons in Hreqs as [Hp Hreqs]. simpl in Hp.
    pose proof (requested_nonneg reqs Hreqs) as Hnn.
    change (requested ((num, size) :: reqs))
      with (num * size + requested reqs).
    cbn [dummy_callocs]. unfold bind, ret.
    destruct (Z.lt_ge_cases (dummy_offset st + num * size) 1024) as [Hfit|Hfull].
    + rewrite (dummy_calloc_fits num size st Ho Hp Hfit).
      set (st1 := set_dummy_offset P (dummy_offset st + num * size) st).
      assert (Ho1 : 0 <= dummy_offset st1 < 1024) by (simpl; lia).
      specialize (IH st1 Ho1 Hreqs).
      change (dummy_offset st1) with (dummy_offset st + num * size) in IH.
      rewrite <- Z.add_assoc in IH.
      destruct (dummy_offset st + (num * size + requested reqs) <? 1024).
      * destruct IH as (rs & st' & Hrun & Hlen & Hoff & Hh & Htd).
        exists (wrap64 (dummy_buf P + 8 * dummy_offset st) :: rs), st'.
        rewrite Hrun. simpl.
        repeat split; auto; lia.
      * destruct IH as (st' & Hrun). exists st'. now rewrite Hrun.
    + destruct (dummy_calloc_full num size st Ho Hp Hfull) as (st' & Hrun).
      rewrite Hrun.
      destruct (dummy_offset st + (num * size + requested reqs) <? 1024) eqn:Hlt;
        [lia|eauto].
Qed.

Lemma dummy_callocs_addresses (reqs : list (Z * Z)) :
  forall (st st' : State P) rs,
  0 <= dummy_offset st < 1024 ->
  Forall (fun r => 0 <= r.1 * r.2 < 2 ^ 63) reqs ->
  dummy_callocs P reqs st = Returned rs st' ->
  forall i r, rs !! i = Some r ->
    r = wrap64 (dummy_buf P + 8 * (dummy_offset st + requested (take i reqs))) /\
    dummy_offset st + requested (take (S i) reqs) < 1024.
Proof.
  induction reqs as [|[num size] reqs IH]; intros st st' rs Ho Hreqs Hrun i r Hi.
  - injection Hrun as <- _. discriminate.
  - apply Forall_cons in Hreqs as [Hp Hreqs]. simpl in Hp.
    cbn [dummy_callocs] in Hrun. unfold bind at 1 in Hrun.
    destruct (Z.lt_ge_cases (dummy_offset st + num * size) 1024) as [Hfit|Hfull].
    + rewrite (dummy_calloc_fits num size st Ho Hp Hfit) in Hrun.
      set (st1 := set_dummy_offset P (dummy_offset st + num * size) st) in *.
      unfold bind, ret in Hrun.
      destruct (dummy_callocs P reqs st1) as [rs1 st2| |] eqn:Hrest;
        try discriminate Hrun.
      injection Hrun as <- <-.
      destruct i as [|i].
      * injection Hi as <-. unfold requested. simpl.
        rewrite Z.add_0_r. split; [reflexivity|lia].
      * assert (Ho1 : 0 <= dummy_offset st1 < 1024) by (simpl; lia).
        destruct (IH st1 st2 rs1 Ho1 Hreqs Hrest i r Hi) as (Hr & Hb).
        change (dummy_offset st1) with (dummy_offset st + num * size) in Hr, Hb.
        change (requested (take (S i) ((num, size) :: reqs)))
          with (num * size + requested (take i reqs)).
        change (requested (take (S (S i)) ((num, size) :: reqs)))
          with (num * size + requested (take (S i) reqs)).
        rewrite Z.add_assoc. split; [exact Hr|lia].
    + destruct (dummy_calloc_full num size st Ho Hp Hfull) as (stx & Hx).
      rewrite Hx in Hrun. discriminate.
Qed.

Lemma stand_in_capacity_length (reqs : list (Z * Z)) :
  forall (st st' : State P) rs,
  dummy_callocs P reqs st = Returned rs st' -> length rs = length reqs.
Proof.
  induction reqs as [|[num size] reqs IH]; intros st st' rs Hrun.
  - now injection Hrun as <- _.
  - cbn [dummy_callocs] in Hrun. unfold bind, ret in Hrun.
    destruct (dummy_calloc P num size st) as [r st1| |]; try discriminate Hrun.
    destruct (dummy_callocs P reqs st1) as [rs1 st2| |] eqn:Hrest;
      try discriminate Hrun.
    injection Hrun as <- _. simpl. f_equal. exact (IH _ _ _ Hrest).
Qed.

End Bootstrapping.

(** ** Further properties: the blocks of the stand-in *)

Section StandIn.

Context (P : Platform).

Lemma requested_app (l k : list (Z * Z)) :
  requested (l ++ k) = requested l + requested k.
Proof.
  unfold requested. induction l as [|r l IH]; simpl; [reflexivity|].
  rewrite IH. lia.
Qed.

Lemma requested_take_S (reqs : list (Z * Z)) i num size :
  reqs !! i = Some (num, size) ->
  requested (take (S i) reqs) = requested (take i reqs) + num * size.
Proof.
  intros Hi. rewrite (take_S_r _ _ _ Hi), requested_app.
  unfold requested at 2. simpl. lia.
Qed.

Lemma requested_take_mono (reqs : list (Z * Z)) i j :
  Forall (fun r => 0 <= r.1 * r.2 < 2 ^ 63) reqs -> (i <= j)%nat ->
  requested (take i reqs) <= requested (take j reqs).
Proof.
  intros Hreqs Hij.
  rewrite <- (take_drop i (take j reqs)), requested_app.
  rewrite take_take, Nat.min_l by exact Hij.
  pose proof (requested_nonneg (drop i (take j reqs))
                (Forall_drop _ _ _ (Forall_take _ _ _ Hreqs))).
  lia.
Qed.

(** X5 (the blocks of the stand-in). Take requests none of which asks
    for [2^63] bytes or more, served one after the other by
    [dummy_calloc] from an offset below 1024, with the static buffer
    inside the address space.  When all of them are served, every
    block handed out, from its address to the last byte asked for,
    lies inside the buffer of 1024 pointers, and every block ends
    before a block handed out later begins: no two of them overlap.
    The bound on the requests is needed: a product that wraps around
    moves the offset back (see [stand_in_blocks_overlap_on_wrap]). *)
Theorem stand_in_blocks_disjoint (reqs : list (Z * Z)) (st st' : State P) rs :
  0 <= dummy_offset st < 1024 ->
  Forall (fun r => 0 <= r.1 * r.2 < 2 ^ 63) reqs ->
  0 <= dummy_buf P -> dummy_buf P + 8 * 1024 <= 2 ^ 64 ->
  dummy_callocs P reqs st = Returned rs st' ->
  (forall i r num size,
     rs !! i = Some r -> reqs !! i = Some (num, size) ->
     dummy_buf P <= r /\ r + num * size <= dummy_buf P + 8 * 1024) /\
  (forall i j r r' num size,
     (i < j)%nat -> rs !! i = Some r -> rs !! j = Some r' ->
     reqs !! i = Some (num, size) ->
     r + num * size <= r').
Proof.
  intros Ho Hreqs Hbuf Hend Hrun.
  assert (Haddr : forall i r num size,
            rs !! i = Some r -> reqs !! i = Some (num, size) ->
            r = dummy_buf P + 8 * (dummy_offset st + requested (take i reqs)) /\
            0 <= requested (take i reqs) /\ 0 <= num * size /\
            dummy_offset st + requested (take i reqs) + num * size < 1024).
  { intros i r num size Hi Hq.
    destruct (dummy_callocs_addresses P reqs st st' rs Ho Hreqs Hrun i r Hi)
      as (Hr & Hb).
    rewrite (requested_take_S reqs i num size Hq) in Hb.
    pose proof (requested_nonneg (take i reqs) (Forall_take _ _ _ Hreqs)) as Hnn.
    assert (Hp : 0 <= num * size).
    { exact (proj1 (Forall_lookup_1 _ _ _ _ Hreqs Hq)). }
    split; [|lia].
    rewrite Hr. unfold wrap64. apply Z.mod_small. lia. }
  split.
  - intros i r num size Hi Hq.
    destruct (Haddr i r num size Hi Hq) as (-> & ? & ? & ?). lia.
  - intros i j r r' num size Hij Hi Hj Hq.
    destruct (Haddr i r num size Hi Hq) as (-> & ? & ? & ?).
    destruct (lookup_lt_is_Some_2 reqs j) as ([num' size'] & Hq').
    { pose proof (stand_in_capacity_length P reqs st st' rs Hrun) as Hlen.
      apply lookup_lt_Some in Hj. lia. }
    destruct (Haddr j r' num' size' Hj Hq') as (-> & ? & ? & ?).
    pose proof (requested_take_mono reqs (S i) j Hreqs Hij) as Hmono.
    rewrite (requested_take_S reqs i num size Hq) in Hmono. lia.
Qed.

End StandIn.

(** ** Further properties: calls one after the other *)

Section Sequences.

Context (P : Platform).

Lemma healthy_bootstraps call (st : State P) :
  healthy st -> bootstraps call st.
Proof.
  intros (Hin & _ & [Hb|(Hb & Hsym)]).
  - left. rewrite Hb. destruct call; reflexivity.
  - right. rewrite Hb. repeat split; auto. destruct call; reflexivity.
Qed.

Lemma healthy_after_boot call (st : State P) :
  healthy st -> boot (after_boot call st) = booted.
Proof.
  intros (_ & _ & [Hb|(Hb & _)]); unfold after_boot.
  - destruct (known call (boot st)); [exact Hb|reflexivity].
  - rewrite Hb. destruct call; reflexivity.
Qed.

(** A call of a healthy thread returns and leaves the thread healthy. *)
Lemma healthy_step c call (st : State P) :
  healthy st ->
  exists st',
    run_call P c call st = Returned (true_call P call (heap st)).1 st' /\
    heap st' = (true_call P call (heap st)).2 /\
    healthy st' /\ boot st' = booted /\ stderr st' = stderr st /\
    written st' =
      (written st ++
       recorded c call (true_call P call (heap st)).1
                (cache_of st) (next_cache_id st))%list.
Proof.
  intros Hst. pose proof Hst as (Hin & Hok & _).
  destruct (run_call_traced P c call st (healthy_bootstraps call st Hst) Hin Hok)
    as (st' & Hrun & Hh & Hin' & Hw & _ & _ & Hsome & Hb & He).
  rewrite (healthy_after_boot call st Hst) in Hb.
  exists st'. repeat split; auto.
  - unfold session_ready. destruct Hsome as (td & ->). reflexivity.
Qed.

(** With the guard engaged calls made one after the other are the
    calls through the pointers and nothing else. *)
Lemma run_calls_guarded (calls : list (Cursor * Call)) :
  forall st : State P,
  boot st = booted -> in_handler st = true ->
  exists st',
    run_calls P calls st =
      Returned (true_calls P (map snd calls) (heap st)).1 st' /\
    heap st' = (true_calls P (map snd calls) (heap st)).2 /\
    threadData st' = threadData st /\ in_handler st' = true /\
    boot st' = booted /\ stderr st' = stderr st /\
    next_cache_id st' = next_cache_id st /\
    next_thread_id st' = next_thread_id st /\
    dummy_offset st' = dummy_offset st.
Proof.
  induction calls as [|[c call] calls IH]; intros st Hb Hin.
  - exists st. simpl. auto 10.
  - assert (Hboot : bootstraps call st).
    { left. rewrite Hb. destruct call; reflexivity. }
    cbn [run_calls map snd true_calls]. unfold bind.
    rewrite (run_call_guarded P c call st Hboot Hin).
    destruct (true_call P call (heap st)) as [r h1]. simpl.
    destruct (IH (set_heap P h1 st) Hb Hin)
      as (st' & Hrun & Hh & Htd & Hin' & Hb' & He & Hn & Ht & Hd).
    simpl in Hrun, Hh. rewrite Hrun.
    destruct (true_calls P (map snd calls) h1) as [rs h2]. simpl in *.
    exists st'. auto 10.
Qed.

(** X6 (a thread in good standing stays so). A thread outside the
    handlers, whose process is bootstrapped or can be and whose output
    file is or will be granted, can make any calls of the entry points
    one after the other: every one of them returns, none ends the
    process, nothing is printed on the error stream, and what the
    output file held is a prefix of what it holds afterwards.  The
    thread is left in the same good standing, so the same holds of
    whatever it calls next, and after the first call the process is
    bootstrapped. *)
Theorem healthy_thread_stays_healthy (calls : list (Cursor * Call)) :
  forall st : State P,
  healthy st ->
  exists rs st',
    run_calls P calls st = Returned rs st' /\
    length rs = length calls /\
    healthy st' /\ (calls <> [] -> boot st' = booted) /\
    stderr st' = stderr st /\
    exists chunks, written st' = (written st ++ chunks)%list.
Proof.
  induction calls as [|[c call] calls IH]; intros st Hst.
  - exists [], st. simpl. repeat split; try apply Hst; try congruence.
    exists []. now rewrite app_nil_r.
  - destruct (healthy_step c call st Hst)
      as (st1 & Hrun1 & _ & Hst1 & Hb1 & He1 & Hw1).
    destruct (IH st1 Hst1)
      as (rs & st' & Hrun & Hlen & Hst' & Hb & He & chunks & Hw).
    cbn [run_calls]. unfold bind. rewrite Hrun1, Hrun.
    eexists _, st'. split; [reflexivity|]. simpl.
    repeat split; try apply Hst'; try congruence.
    + intros _. destruct calls as [|x calls'].
      * injection Hrun as _ <-. exact Hb1.
      * apply Hb. discriminate.
    + eexists. rewrite Hw, Hw1, <- app_assoc. reflexivity.
Qed.

(** X7 (one session per thread). Whatever call of an entry point a
    thread that has its session makes, the call returns what the next
    allocator answers and the thread has the same session still: the
    same thread number, the same output file under the same name,
    opened once, and what the file held before the call is a prefix of
    what it holds after it.  No other session is constructed, the
    thread counter stays, and the guard is left as the call found
    it. *)
Theorem session_kept c call (st : State P) td :
  bootstraps call st -> threadData st = Some td ->
  exists st' td' chunks,
    run_call P c call st = Returned (true_call P call (heap st)).1 st' /\
    threadData st' = Some td' /\
    thread_id td' = thread_id td /\
    f_path (out td') = f_path (out td) /\
    f_mode (out td') = f_mode (out td) /\
    f_written (out td') = (f_written (out td) ++ chunks)%list /\
    next_thread_id st' = next_thread_id st /\
    in_handler st' = in_handler st.
Proof.
  intros Hboot Htd.
  destruct (in_handler st) eqn:Hin.
  - rewrite (run_call_guarded P c call st Hboot Hin).
    eexists _, td, []. split; [reflexivity|]. simpl.
    rewrite app_nil_r. auto 10.
  - rewrite (run_call_body P c call st Hboot Hin).
    destruct (after_boot_fields P call st Hboot) as (_ & Htd' & _ & Ht & _).
    set (s := set_in_handler P true
                (set_heap P (true_call P call (heap st)).2 (after_boot call st))).
    assert (Hs : threadData s = Some td) by (simpl; congruence).
    destruct (handler_of_does P c call (heap st)) as (_ & _ & Hdoes).
    destruct (Hdoes s td Hs) as (s2 & Hrun2 & Hev).
    destruct Hev as (td0 & td2 & Ha & Hc & _ & Hid & Hp & Hm & Hw & _ & _ & Ht2 & _).
    rewrite Hs in Ha. injection Ha as <-.
    exists (set_in_handler P false s2), td2. eexists.
    unfold bind, modify, ret. fold s. rewrite Hrun2.
    split; [reflexivity|]. simpl. rewrite Hc.
    repeat split; try eassumption.
    rewrite Ht2. simpl. exact Ht.
Qed.

(** X8 (after the thread is over). The destructor of the session of
    a thread engages the guard for good and closes the file.  Whatever
    calls of the entry points are made on the thread afterwards, as the
    runtime does to tear the thread down, are answered by the next
    allocator alone: they all return, the session and its file are
    left exactly as the destructor left them, no frame is numbered and
    nothing is printed.  A thread that never allocated has no session
    and its end changes nothing. *)
Theorem silent_after_thread_exit (calls : list (Cursor * Call)) (st : State P) :
  boot st = booted ->
  match threadData st with
  | Some td =>
      exists st1 st2,
        thread_exit P st = Returned tt st1 /\
        run_calls P calls st1 =
          Returned (true_calls P (map snd calls) (heap st)).1 st2 /\
        heap st2 = (true_calls P (map snd calls) (heap st)).2 /\
        threadData st2 = Some td /\ in_handler st2 = true /\
        next_cache_id st2 = next_cache_id st /\ stderr st2 = stderr st
  | None => thread_exit P st = Returned tt st
  end.
Proof.
  intros Hb. unfold thread_exit, bind, gets.
  destruct (threadData st) as [td|] eqn:Htd; [|reflexivity].
  unfold ThreadData_dtor, fclose, bind, modify, ret.
  destruct (run_calls_guarded calls (set_in_handler P true st) Hb eq_refl)
    as (st2 & Hrun & Hh & Htd2 & Hin & _ & He & Hn & _).
  exists (set_in_handler P true st), st2. simpl in *.
  repeat split; try assumption; congruence.
Qed.

End Sequences.

(** ** Further properties: the walk and its cache *)

Section Rewalk.

Context (P : Platform).

Lemma cache_after_cons m v tr :
  cache_after m (v :: tr) = cache_after (cache_insert (ip (seen v)) (entry v) m) tr.
Proof. reflexivity. Qed.

Lemma counter_after_cons n v tr :
  counter_after n (v :: tr) =
    counter_after (if cached v then n else wrap64 (n + 1)) tr.
Proof. reflexivity. Qed.

(** A walk from a cache that holds what an earlier walk of the same
    frames left visits the same frames and finds every one cached. *)
Lemma trace_recalled fs : forall m n M n',
  (forall k e, cache_after m (trace m n fs) !! k = Some e -> M !! k = Some e) ->
  trace M n' fs = map recalled (trace m n fs).
Proof.
  induction fs as [|f outer IH]; intros m n M n' Hext; [reflexivity|].
  rewrite (trace_cons m n f outer) in *.
  set (v := visit_of m n f) in *.
  assert (HM : M !! ip f = Some (entry v)).
  { apply Hext. change (v :: ?l) with ([v] ++ l)%list.
    rewrite cache_after_app. apply cache_after_keeps. apply visit_of_lookup. }
  cbn [trace]. rewrite HM. cbn [map]. unfold recalled at 1.
  replace (seen v) with f by (symmetry; apply seen_visit_of).
  f_equal. destruct (stop (entry v)); [reflexivity|].
  apply IH. intros k e Hk. apply Hext.
  change (v :: ?l) with ([v] ++ l)%list. now rewrite cache_after_app.
Qed.

Lemma emitted_recalled tr :
  flat_map emitted (map recalled tr) = flat_map reference_of tr.
Proof.
  induction tr as [|v tr IH]; [reflexivity|].
  cbn [map flat_map]. now rewrite IH.
Qed.

Lemma cache_after_recalled tr : forall M,
  (forall v, v ∈ tr -> is_Some (M !! ip (seen v))) ->
  cache_after M (map recalled tr) = M.
Proof.
  induction tr as [|v tr IH]; intros M Hin; [reflexivity|].
  cbn [map]. rewrite cache_after_cons. unfold cache_insert. simpl.
  destruct (Hin v) as (e & ->); [left|].
  apply IH. intros u Hu. apply Hin. now right.
Qed.

Lemma counter_after_recalled tr n : counter_after n (map recalled tr) = n.
Proof.
  induction tr as [|v tr IH]; [reflexivity|].
  cbn [map]. rewrite counter_after_cons. exact IH.
Qed.

(** X9 (a stack walked before). Once a call stack has been walked,
    every later walk of the same stack by the thread, whatever was
    traced and cached in between, writes references only: one
    [<id>;] for every frame the first walk visited and did not skip,
    with the identifiers of the first walk and in its order.  It
    defines no frame, adds nothing to the cache and leaves the frame
    counter alone. *)
Theorem walked_stack_referenced c (st st1 st2 : State P) td td2 :
  threadData st = Some td -> print_caller P c st = Returned tt st1 ->
  threadData st2 = Some td2 ->
  (forall k e, cache_of st1 !! k = Some e -> cache_of st2 !! k = Some e) ->
  exists st3,
    print_caller P c st2 = Returned tt st3 /\
    written st3 =
      (written st2 ++
       flat_map reference_of (trace (cache_of st) (next_cache_id st) (walked c)))%list /\
    cache_of st3 = cache_of st2 /\
    next_cache_id st3 = next_cache_id st2.
Proof.
  intros Htd Hrun1 Htd2 Hext.
  destruct (print_caller_walk P c st td Htd) as (st1' & Hrun1' & _ & _ & _ & Hm1 & _).
  rewrite Hrun1 in Hrun1'. injection Hrun1' as <-.
  rewrite Hm1 in Hext.
  destruct (print_caller_walk P c st2 td2 Htd2) as (st3 & Hrun & _ & _ & Hw & Hm & Hn).
  rewrite (trace_recalled (walked c) (cache_of st) (next_cache_id st)
             (cache_of st2) (next_cache_id st2) Hext) in Hw, Hm, Hn.
  exists st3. split; [exact Hrun|].
  rewrite Hw, Hm, Hn, emitted_recalled, counter_after_recalled.
  repeat split. apply cache_after_recalled.
  intros v Hv. exists (entry v). apply Hext. now apply trace_entries.
Qed.

(** The loop leaves at the frame that stops it: the frames after that
    one are never stepped to. *)
Lemma unwind_loop_stops pre : forall rest (st : State P) td,
  threadData st = Some td ->
  (exists v, last (trace (ipCache td) (next_cache_id st) pre) = Some v /\
             stop (entry v) = true) ->
  unwind_loop P (pre ++ rest) st = unwind_loop P pre st.
Proof.
  induction pre as [|f pre IH]; intros rest st td Htd (u & Hlast & Hstop).
  - discriminate Hlast.
  - rewrite trace_cons in Hlast.
    destruct (visit_frame_evolves P st td f Htd) as (st1 & Hrun & Hev).
    set (v := visit_of (ipCache td) (next_cache_id st) f) in *.
    change ((f :: pre) ++ rest)%list with (f :: (pre ++ rest))%list.
    cbn [unwind_loop]. unfold bind. rewrite Hrun.
    destruct (stop (entry v)) eqn:Hv; [reflexivity|].
    destruct Hev as (td0 & td1 & Ha & Hb & Hm & _ & _ & _ & _ & Hn & _).
    apply (IH rest st1 td1 Hb). rewrite Hm, Hn.
    rewrite last_cons in Hlast.
    destruct (last (trace _ _ pre)) as [w|] eqn:Hw.
    + exists u. split; [exact Hlast|exact Hstop].
    + injection Hlast as <-. congruence.
Qed.

(** X10 (what a walk depends on). The walk of a call stack depends on
    nothing but the frames from the third one up to the frame that
    stops it.  Take a stack whose walk over the frames [pre] ends at a
    frame that stops it, a frame of [main] or of the static
    initialisers or one cached as such: whatever the two innermost
    frames are, whatever frames lie beyond [pre] and however libunwind
    ends the unwinding there, [print_caller] does exactly the same,
    down to the whole state it leaves. *)
Theorem frames_past_stop_ignored a b a' b' pre rest e e' (st : State P) td :
  threadData st = Some td ->
  (exists v, last (trace (cache_of st) (next_cache_id st) pre) = Some v /\
             stop (entry v) = true) ->
  print_caller P {| frames := a :: b :: pre ++ rest; ending := e |} st =
  print_caller P {| frames := a' :: b' :: pre; ending := e' |} st.
Proof.
  intros Htd Hstop. unfold print_caller. rewrite !skip_frames_two. simpl.
  unfold bind. rewrite (the_threadData_some P st td Htd).
  apply (unwind_loop_stops pre rest st td Htd).
  unfold cache_of in Hstop. now rewrite Htd in Hstop.
Qed.

Lemma ids_distinct_insert m n k e :
  ids_distinct m n -> m !! k = None -> id e = n ->
  ids_distinct (<[k := e]> m) (n + 1).
Proof.
  intros (Hlt & Hinj) Hk He. split.
  - intros k1 e1 H1. destruct (decide (k = k1)) as [<-|Hne].
    + rewrite lookup_insert_eq in H1. injection H1 as <-. lia.
    + rewrite lookup_insert_ne in H1 by exact Hne.
      pose proof (Hlt k1 e1 H1). lia.
  - intros k1 k2 e1 e2 H1 H2 Hid.
    destruct (decide (k = k1)) as [<-|Hne1];
      destruct (decide (k = k2)) as [<-|Hne2]; [reflexivity| | |].
    + rewrite lookup_insert_eq in H1. injection H1 as <-.
      rewrite lookup_insert_ne in H2 by exact Hne2.
      pose proof (Hlt k2 e2 H2). lia.
    + rewrite lookup_insert_eq in H2. injection H2 as <-.
      rewrite lookup_insert_ne in H1 by exact Hne1.
      pose proof (Hlt k1 e1 H1). lia.
    + rewrite lookup_insert_ne in H1 by exact Hne1.
      rewrite lookup_insert_ne in H2 by exact Hne2.
      exact (Hinj k1 k2 e1 e2 H1 H2 Hid).
Qed.

Lemma trace_ids_distinct fs : forall m n,
  ids_distinct m n -> 0 <= n -> n + Z.of_nat (length fs) < 2 ^ 64 ->
  ids_distinct (cache_after m (trace m n fs)) (counter_after n (trace m n fs)) /\
  n <= counter_after n (trace m n fs) <= n + Z.of_nat (length fs).
Proof.
  induction fs as [|f outer IH]; intros m n Hd Hn Hlen.
  - simpl. split; [exact Hd|lia].
  - cbn [length] in Hlen. rewrite Nat2Z.inj_succ in Hlen.
    cbn [length]. rewrite Nat2Z.inj_succ.
    cbn [trace]. destruct (m !! ip f) as [e|] eqn:Hlk.
    + rewrite cache_after_cons, counter_after_cons. unfold cache_insert.
      simpl. rewrite Hlk.
      destruct (stop e).
      * simpl. split; [exact Hd|lia].
      * destruct (IH m n Hd Hn) as (Hd' & Hb); [lia|]. split; [exact Hd'|lia].
    + cbv zeta. rewrite cache_after_cons, counter_after_cons.
      unfold cache_insert. simpl. rewrite Hlk.
      assert (Hw : wrap64 (n + 1) = n + 1)
        by (unfold wrap64; apply Z.mod_small; lia).
      rewrite Hw.
      pose proof (ids_distinct_insert m n (ip f) (classify n f) Hd Hlk eq_refl)
        as Hd1.
      destruct (negb (is_operator_new (name f)) && is_entry_point (name f)).
      * simpl. split; [exact Hd1|lia].
      * destruct (IH _ (n + 1) Hd1) as (Hd' & Hb); [lia|lia|].
        split; [exact Hd'|lia].
Qed.

(** X11 (no two frames share an identifier). As long as the frame
    counter does not wrap around, every call of an entry point keeps
    the cache of the thread in order: when the call returns, every
    identifier in the cache is below the frame counter and no two
    instruction pointers have the same identifier, so that a reference
    [<id>;] of the output file names one frame; the counter has not
    gone down and has advanced by at most the number of frames walked.
    The call does not return only when the output file of the thread
    is refused. *)
Theorem identifiers_stay_distinct c call (st : State P) :
  bootstraps call st ->
  ids_distinct (cache_of st) (next_cache_id st) ->
  0 <= next_cache_id st ->
  next_cache_id st + Z.of_nat (length (walked c)) < 2 ^ 64 ->
  match run_call P c call st with
  | Returned _ st' =>
      ids_distinct (cache_of st') (next_cache_id st') /\
      next_cache_id st <= next_cache_id st'
        <= next_cache_id st + Z.of_nat (length (walked c))
  | Exited code _ =>
      code = 1 /\ in_handler st = false /\ session_ready st = false
  | Faulted _ => False
  end.
Proof.
  intros Hboot Hd Hn Hlen.
  destruct (in_handler st) eqn:Hin.
  - rewrite (run_call_guarded P c call st Hboot Hin).
    split; [exact Hd|simpl; lia].
  - destruct (session_ready st) eqn:Hok.
    + destruct (run_call_traced P c call st Hboot Hin Hok)
        as (st1 & Hrun1 & _ & _ & _ & Hm & Hc & _).
      rewrite Hrun1, Hm, Hc.
      destruct call; simpl walk_of;
        try exact (trace_ids_distinct (walked c) _ _ Hd Hn Hlen).
      simpl. split; [exact Hd|lia].
    + destruct (run_call_refused P c call st Hboot Hin Hok) as (st1 & Hrun1).
      rewrite Hrun1. auto.
Qed.

End Rewalk.

(** ** Further properties: the edges of the entry points *)

Section Edges.

Context (P : Platform).

(** X12 (null pointers are events too). The entry points look at no
    pointer they pass on.  A [free] of the null pointer is recorded as
    [-(nil)], and a [malloc] the next allocator answers with the null
    pointer is handed to the caller as such and recorded as an
    allocation at [(nil)], with its size and its call stack. *)
Theorem null_pointers_recorded c (st : State P) :
  healthy st ->
  (exists st',
     run_call P c (call_free 0) st = Returned res_void st' /\
     written st' = (written st ++ ["-(nil)" +:+ newline])%list) /\
  (forall size,
     (sys_malloc P size (heap st)).1 = 0 ->
     exists st',
       run_call P c (call_malloc size) st = Returned (res_ptr 0) st' /\
       written st' =
         (written st ++
          ("+" +:+ fmt_ld size +:+ ":(nil) ")
            :: flat_map emitted
                 (trace (cache_of st) (next_cache_id st) (walked c))
            ++ [newline])%list).
Proof.
  intros Hst. split.
  - destruct (healthy_step P c (call_free 0) st Hst)
      as (st' & Hrun & _ & _ & _ & _ & Hw).
    exists st'. split; [exact Hrun|exact Hw].
  - intros size Hnull.
    destruct (healthy_step P c (call_malloc size) st Hst)
      as (st' & Hrun & _ & _ & _ & _ & Hw).
    simpl in Hrun, Hw. destruct (sys_malloc P size (heap st)) as [r h'].
    simpl in Hnull, Hrun, Hw. subst r.
    exists st'. split; [exact Hrun|exact Hw].
Qed.

Lemma fprintf_out_refused_state (st : State P) chunk :
  session_ready st = false ->
  exists st',
    fprintf_out P chunk st = Exited 1 st' /\
    stderr st' =
      (stderr st ++ ["Failed to open output file: " +:+ session_path st
                       +:+ newline])%list /\
    heap st' = heap st /\ threadData st' = None /\ in_handler st' = true /\
    boot st' = boot st.
Proof.
  unfold session_ready.
  destruct (threadData st) as [td|] eqn:Htd; intros Hok; [discriminate|].
  unfold fprintf_out, the_threadData, bind, gets. rewrite Htd.
  unfold ThreadData_ctor, bind, gets, modify, fopen. simpl.
  fold (session_path st). rewrite Hok.
  eexists. split; [reflexivity|]. simpl. auto.
Qed.

Lemma handler_of_refused c call (h : Heap P) (s : State P) :
  session_ready s = false ->
  exists s',
    handler_of P c call (true_call P call h).1 s = Exited 1 s' /\
    stderr s' =
      (stderr s ++ ["Failed to open output file: " +:+ session_path s
                      +:+ newline])%list /\
    heap s' = heap s /\ threadData s' = None /\ in_handler s' = true /\
    boot s' = boot s.
Proof.
  intros Hno.
  destruct call; simpl;
    repeat match goal with
      | |- context [let '(_, _) := ?x in _] => destruct x as [? ?]
      end; simpl; unfold handleMalloc, handleFree, bind;
    match goal with
    | |- context [fprintf_out P ?chunk s] =>
        destruct (fprintf_out_refused_state s chunk Hno) as (s' & Hrun & Hrest);
        rewrite Hrun; exists s'; split; [reflexivity|exact Hrest]
    end.
Qed.

(** X13 (an output file that cannot be opened). The first traced
    call of a thread whose output file is refused ends the process
    with status 1: the error stream gets the one line
    [Failed to open output file: <path>], the thread has no session
    and nothing was recorded. *)
Theorem refused_file_ends_process c call (st : State P) :
  bootstraps call st -> in_handler st = false -> session_ready st = false ->
  exists st',
    run_call P c call st = Exited 1 st' /\
    stderr st' =
      (stderr st ++ ["Failed to open output file: " +:+ session_path st
                       +:+ newline])%list /\
    threadData st' = None /\ written st' = [].
Proof.
  intros Hboot Hfree Hno.
  rewrite (run_call_body P c call st Hboot Hfree).
  destruct (after_boot_fields P call st Hboot) as (_ & Htd & _ & Ht & _ & He & _).
  set (s := set_in_handler P true
              (set_heap P (true_call P call (heap st)).2 (after_boot call st))).
  assert (Hno' : session_ready s = false).
  { unfold session_ready, session_path in *. simpl. now rewrite Htd, Ht. }
  destruct (handler_of_refused c call (heap st) s Hno')
    as (s' & Hrun & Herr & _ & Hnone & _).
  exists s'. unfold bind, modify. fold s. rewrite Hrun.
  split; [reflexivity|]. rewrite Herr. simpl.
  unfold session_path. simpl. rewrite Ht, He.
  unfold written. rewrite Hnone. auto.
Qed.

(** X14 (a call from inside the bootstrap). A call of an entry point
    that finds its pointer null while the guard is engaged, as any
    allocation but [calloc] that [dlsym] would make from inside [init],
    ends the process with status 1 and the line
    [initialization recursion detected]; the next allocator is not
    called and nothing is recorded. *)
Theorem call_inside_init_ends_process c call (st : State P) :
  in_handler st = true -> unset call (boot st) = true ->
  exists st',
    run_call P c call st = Exited 1 st' /\
    stderr st' =
      (stderr st ++ ["initialization recursion detected" +:+ newline])%list /\
    heap st' = heap st /\ threadData st' = threadData st /\
    boot st' = boot st.
Proof.
  intros Hin Hu.
  assert (Hinit : exists st',
            init P st = Exited 1 st' /\
            stderr st' =
              (stderr st ++ ["initialization recursion detected" +:+ newline])%list /\
            heap st' = heap st /\ threadData st' = threadData st /\
            boot st' = boot st).
  { unfold init, bind, gets. rewrite Hin. eexists. split; [reflexivity|].
    simpl. auto. }
  destruct Hinit as (st' & Hrun & Hrest).
  exists st'. split; [|exact Hrest].
  exact (run_call_init_exit P c call st st' 1 Hu Hrun).
Qed.

Lemma append_inj_r (a x y : string) : a +:+ x = a +:+ y -> x = y.
Proof.
  induction a as [|ch a IH]; intros H; [exact H|].
  change (String ch (a +:+ x) = String ch (a +:+ y)) in H.
  injection H as H. exact (IH H).
Qed.

(** X15 (one file per thread). The name of the output file of a
    thread is the base path of the environment, empty when the
    variable is not set, followed by the process number, a dot and the
    thread number; threads with different numbers get files with
    different names. *)
Theorem session_files_distinct (st st' : State P) :
  (getenv P "DUMP_MALLOC_TRACE_OUTPUT" = None ->
   session_path st =
     to_string_int (getpid P) +:+ "." +:+ to_string_ulong (next_thread_id st)) /\
  (0 <= next_thread_id st < 2 ^ 64 -> 0 <= next_thread_id st' < 2 ^ 64 ->
   session_path st = session_path st' ->
   next_thread_id st = next_thread_id st').
Proof.
  split.
  - intros Henv. unfold session_path, env. rewrite Henv. reflexivity.
  - intros Ha Hb Heq. unfold session_path in Heq.
    apply append_inj_r, append_inj_r, append_inj_r in Heq.
    unfold to_string_ulong, wrap64 in Heq.
    rewrite !Z.mod_small in Heq by lia.
    apply dec_digits_inj; [lia|lia|exact Heq].
Qed.

End Edges.

(** ** Further properties: [init] and the allocations of [dlsym] *)

Section BootstrapCalls.

Context (P : Platform) (c : Cursor) (asks : string -> list (Z * Z)).

(** When [dlsym] allocates nothing, [init_calling] is [init]. *)
Lemma init_calling_quiet (st : State P) :
  init_calling P c (fun _ => []) st = init P st.
Proof.
  unfold init_calling, init, bind, gets.
  destruct (in_handler st); [reflexivity|].
  unfold assign, modify, findReal_calling, findReal, dlsym, bind, ret.
  cbn [map run_calls]. unfold ret.
  repeat match goal with
    | |- context [dlsym_next P ?sym] =>
        destruct (dlsym_next P sym); [|reflexivity]
    end.
  reflexivity.
Qed.

Lemma calloc_stand_in num size (st : State P) :
  real_calloc (boot st) = calloc_dummy -> in_handler st = true ->
  calloc P c num size st = dummy_calloc P num size st.
Proof.
  intros Hptr Hin.
  unfold calloc, call_real_calloc, bind, gets, ret. rewrite Hptr. simpl.
  rewrite Hptr. unfold dummy_calloc, bind, gets, modify, ret.
  destruct (wrap64 (dummy_offset st + wrap64 (num * size)) >=? MAX_SIZE);
    simpl; [reflexivity|]. now rewrite Hin.
Qed.

Lemma dummy_calloc_full_state (num size : Z) (st : State P) :
  0 <= dummy_offset st < 1024 -> 0 <= num * size < 2 ^ 63 ->
  1024 <= dummy_offset st + num * size ->
  exists st',
    dummy_calloc P num size st = Exited 1 st' /\
    in_handler st' = in_handler st /\ threadData st' = threadData st /\
    next_cache_id st' = next_cache_id st /\
    next_thread_id st' = next_thread_id st /\ heap st' = heap st.
Proof.
  intros Ho Hp Hfull.
  unfold dummy_calloc, bind, gets, modify, ret, MAX_SIZE, wrap64.
  rewrite (Z.mod_small (num * size)) by lia.
  rewrite (Z.mod_small (dummy_offset st + num * size)) by lia.
  destruct (dummy_offset st + num * size >=? 1024) eqn:Hge; [|lia].
  eexists. split; [reflexivity|]. simpl. auto.
Qed.

(** The calls of [calloc] made while [real_calloc] is the stand-in. *)
Lemma run_callocs_stand_in (reqs : list (Z * Z)) : forall st : State P,
  real_calloc (boot st) = calloc_dummy -> in_handler st = true ->
  0 <= dummy_offset st < 1024 ->
  Forall (fun r => 0 <= r.1 * r.2 < 2 ^ 63) reqs ->
  match run_calls P (map (fun r => (c, call_calloc r.1 r.2)) reqs) st with
  | Returned _ st' =>
      dummy_offset st + requested reqs < 1024 /\
      dummy_offset st' = dummy_offset st + requested reqs /\
      boot st' = boot st /\ in_handler st' = true /\ heap st' = heap st /\
      threadData st' = threadData st /\
      next_cache_id st' = next_cache_id st /\
      next_thread_id st' = next_thread_id st /\ stderr st' = stderr st
  | Exited code st' =>
      code = 1 /\ 1024 <= dummy_offset st + requested reqs /\
      in_handler st' = true /\ threadData st' = threadData st /\
      next_cache_id st' = next_cache_id st /\
      next_thread_id st' = next_thread_id st /\ heap st' = heap st
  | Faulted _ => False
  end.
Proof.
  induction reqs as [|[num size] reqs IH]; intros st Hptr Hin Ho Hreqs.
  - unfold requested. simpl. repeat split; auto; lia.
  - apply Forall_cons in Hreqs as [Hp Hreqs]. simpl in Hp.
    pose proof (requested_nonneg reqs Hreqs) as Hnn.
    change (requested ((num, size) :: reqs))
      with (num * size + requested reqs).
    cbn [map run_calls run_call fst snd]. unfold bind.
    rewrite (calloc_stand_in num size st Hptr Hin).
    destruct (Z.lt_ge_cases (dummy_offset st + num * size) 1024) as [Hfit|Hfull].
    + rewrite (dummy_calloc_fits P num size st Ho Hp Hfit). unfold ret at 1.
      set (st1 := set_dummy_offset P (dummy_offset st + num * size) st).
      assert (Ho1 : 0 <= dummy_offset st1 < 1024) by (simpl; lia).
      specialize (IH st1 Hptr Hin Ho1 Hreqs).
      destruct (run_calls P _ st1) as [rs st'|code st'|st']; [| |exact IH].
      * destruct IH as (Hlt & Hoff & Hb & Hi & Hh & Ht & Hn & Hm & He).
        simpl in *. repeat split; auto; lia.
      * destruct IH as (Hc & Hge & Hi & Ht & Hn & Hm & Hh).
        simpl in *. repeat split; auto; lia.
    + destruct (dummy_calloc_full_state num size st Ho Hp Hfull)
        as (st' & Hrun & Hi & Ht & Hn & Hm & Hh).
      rewrite Hrun. repeat split; auto; try lia. congruence.
Qed.

(** The calls of [calloc] made once [real_calloc] is the next
    [calloc], with the guard engaged. *)
Lemma run_callocs_guarded (reqs : list (Z * Z)) : forall st : State P,
  real_calloc (boot st) = calloc_next -> in_handler st = true ->
  exists rs st',
    run_calls P (map (fun r => (c, call_calloc r.1 r.2)) reqs) st
      = Returned rs st' /\
    heap st' =
      (true_calls P (map (fun r => call_calloc r.1 r.2) reqs) (heap st)).2 /\
    boot st' = boot st /\ in_handler st' = true /\
    dummy_offset st' = dummy_offset st /\ threadData st' = threadData st /\
    next_cache_id st' = next_cache_id st /\
    next_thread_id st' = next_thread_id st /\ stderr st' = stderr st.
Proof.
  induction reqs as [|[num size] reqs IH]; intros st Hptr Hin.
  - exists [], st. simpl. auto 10.
  - assert (Hboot : bootstraps (call_calloc num size) st).
    { left. simpl. now rewrite Hptr. }
    cbn [map run_calls true_calls fst snd]. unfold bind.
    rewrite (run_call_guarded P c (call_calloc num size) st Hboot Hin).
    destruct (true_call P (call_calloc num size) (heap st)) as [r h1]. simpl.
    destruct (IH (set_heap P h1 st) Hptr Hin)
      as (rs & st' & Hrun & Hh & Hb & Hi & Ho & Ht & Hn & Hm & He).
    simpl in Hh. rewrite Hrun.
    destruct (true_calls P (map _ reqs) h1) as [rs' h2]. simpl in *.
    exists (r :: rs), st'. auto 10.
Qed.

Lemma true_calls_app (l k : list Call) (h : Heap P) :
  (true_calls P (l ++ k) h).2 = (true_calls P k (true_calls P l h).2).2.
Proof.
  revert h. induction l as [|call l IH]; intros h; [reflexivity|].
  cbn [app true_calls].
  destruct (true_call P call h) as [r h1]. specialize (IH h1).
  destruct (true_calls P (l ++ k) h1) as [rs h2].
  destruct (true_calls P l h1) as [rs' h2']. simpl in *.
  exact IH.
Qed.

Lemma calloc_calls_cons symbol symbols (h : Heap P) :
  (true_calls P (calloc_calls asks (symbol :: symbols)) h).2 =
  (true_calls P (calloc_calls asks symbols)
     (true_calls P (map (fun r => call_calloc r.1 r.2) (asks symbol)) h).2).2.
Proof.
  unfold calloc_calls. cbn [flat_map]. rewrite map_app. apply true_calls_app.
Qed.

(** A look-up made once [real_calloc] is the next [calloc]. *)
Lemma findReal_calling_guarded symbol (st : State P) :
  real_calloc (boot st) = calloc_next -> in_handler st = true ->
  match findReal_calling P c asks symbol st with
  | Returned _ st' =>
      dlsym_next P symbol = true /\
      heap st' =
        (true_calls P (map (fun r => call_calloc r.1 r.2) (asks symbol))
           (heap st)).2 /\
      boot st' = boot st /\ in_handler st' = true /\
      dummy_offset st' = dummy_offset st /\ threadData st' = threadData st /\
      next_cache_id st' = next_cache_id st /\
      next_thread_id st' = next_thread_id st /\ stderr st' = stderr st
  | Exited code st' =>
      code = 1 /\ dlsym_next P symbol = false /\
      in_handler st' = true /\ threadData st' = threadData st /\
      next_cache_id st' = next_cache_id st /\
      next_thread_id st' = next_thread_id st
  | Faulted _ => False
  end.
Proof.
  intros Hptr Hin.
  destruct (run_callocs_guarded (asks symbol) st Hptr Hin)
    as (rs & st' & Hrun & Hh & Hb & Hi & Ho & Ht & Hn & Hm & He).
  unfold findReal_calling, dlsym, bind. rewrite Hrun. unfold ret at 1.
  destruct (dlsym_next P symbol); simpl; auto 10.
Qed.

(** The look-up of [calloc], made while [real_calloc] is the
    stand-in. *)
Lemma findReal_calling_stand_in (st : State P) :
  real_calloc (boot st) = calloc_dummy -> in_handler st = true ->
  0 <= dummy_offset st < 1024 ->
  Forall (fun r => 0 <= r.1 * r.2 < 2 ^ 63) (asks "calloc") ->
  match findReal_calling P c asks "calloc" st with
  | Returned _ st' =>
      dlsym_next P "calloc" = true /\
      dummy_offset st + requested (asks "calloc") < 1024 /\
      dummy_offset st' = dummy_offset st + requested (asks "calloc") /\
      boot st' = boot st /\ in_handler st' = true /\ heap st' = heap st /\
      threadData st' = threadData st /\
      next_cache_id st' = next_cache_id st /\
      next_thread_id st' = next_thread_id st /\ stderr st' = stderr st
  | Exited code st' =>
      code = 1 /\
      (dlsym_next P "calloc" = false \/
       1024 <= dummy_offset st + requested (asks "calloc")) /\
      in_handler st' = true /\ threadData st' = threadData st /\
      next_cache_id st' = next_cache_id st /\
      next_thread_id st' = next_thread_id st
  | Faulted _ => False
  end.
Proof.
  intros Hptr Hin Ho Hreqs.
  pose proof (run_callocs_stand_in (asks "calloc") st Hptr Hin Ho Hreqs) as H.
  unfold findReal_calling, dlsym, bind.
  destruct (run_calls P _ st) as [rs st'|code st'|st']; [| |exact H].
  - destruct H as (Hlt & Hoff & Hb & Hi & Hh & Ht & Hn & Hm & He).
    unfold ret at 1. destruct (dlsym_next P "calloc"); simpl; auto 12.
  - destruct H as (Hc & Hge & Hi & Ht & Hn & Hm & Hh). auto 10.
Qed.

Lemma symbols_found_missing symbol :
  In symbol looked_up -> dlsym_next P symbol = false -> symbols_found P = false.
Proof.
  unfold looked_up, symbols_found. simpl.
  intros [<-|[<-|[<-|[<-|[<-|[<-|[<-|[]]]]]]]] ->;
    rewrite ?andb_false_r; reflexivity.
Qed.

(** X1 ([init] is all or nothing). Every call of [calloc] that [dlsym]
    makes lands on the entry point of the tracer: those of the look-up
    of [calloc] are served by the stand-in, the later ones by the next
    [calloc] with the guard engaged.  As long as no call of the first
    look-up asks for [2^63] bytes or more, [init] returns exactly when
    it is entered with the guard free, [dlsym] finds all seven symbols
    and the calls of the first look-up leave the offset of the
    stand-in below 1024.  Then all seven pointers are set, the guard is
    free, the offset has grown by what the first look-up asked for, the
    next allocator has served the calls of the six later look-ups and
    no other, and the thread session, the two counters and the error
    stream are as they were.  Otherwise [init] ends the process with
    status 1, with the guard engaged and the thread session and the
    counters as they were; it never goes through a null pointer. *)
Theorem init_all_or_nothing (st : State P) :
  0 <= dummy_offset st < 1024 ->
  Forall (fun r => 0 <= r.1 * r.2 < 2 ^ 63) (asks "calloc") ->
  match init_calling P c asks st with
  | Returned _ st' =>
      in_handler st = false /\ symbols_found P = true /\
      dummy_offset st + requested (asks "calloc") < 1024 /\
      boot st' = booted /\ in_handler st' = false /\
      dummy_offset st' = dummy_offset st + requested (asks "calloc") /\
      heap st' = (true_calls P (calloc_calls asks (tail looked_up)) (heap st)).2 /\
      threadData st' = threadData st /\
      next_cache_id st' = next_cache_id st /\
      next_thread_id st' = next_thread_id st /\ stderr st' = stderr st
  | Exited code st' =>
      code = 1 /\
      (in_handler st = true \/ symbols_found P = false \/
       1024 <= dummy_offset st + requested (asks "calloc")) /\
      in_handler st' = true /\ threadData st' = threadData st /\
      next_cache_id st' = next_cache_id st /\
      next_thread_id st' = next_thread_id st
  | Faulted _ => False
  end.
Proof.
  intros Ho Hreqs.
  unfold init_calling, bind, gets. destruct (in_handler st) eqn:Hin.
  { unfold eprintf, modify, exit. simpl. auto 10. }
  unfold assign, modify.
  set (s1 := set_boot P (with_real_calloc calloc_dummy
                           (boot (set_in_handler P true st)))
               (set_in_handler P true st)).
  pose proof (findReal_calling_stand_in s1 eq_refl eq_refl Ho Hreqs) as H1.
  destruct (findReal_calling P c asks "calloc" s1) as [[] s|code s|s];
    [| |exact H1].
  2: { destruct H1 as (-> & Hwhy & Hi & Ht & Hn & Hm). simpl in *.
       split; [reflexivity|]. split; [|auto].
       destruct Hwhy as [Hf|Hge]; [|auto].
       right; left. apply (symbols_found_missing "calloc"); [|exact Hf].
       unfold looked_up; simpl; tauto. }
  destruct H1 as (Hf1 & Hlt & Hd & Hb & Hi & Hheap & Ht & Hn & Hm & He).
  simpl in Hlt, Hd, Hb, Hheap, Ht, Hn, Hm, He.
  repeat match goal with
    | |- context [findReal_calling P c asks ?sym (set_boot P ?b ?s0)] =>
        let H := fresh "H" in
        assert (H : real_calloc (boot (set_boot P b s0)) = calloc_next)
          by (simpl; rewrite ?Hb; reflexivity);
        apply (fun H0 => findReal_calling_guarded sym (set_boot P b s0) H0 Hi)
          in H;
        destruct (findReal_calling P c asks sym (set_boot P b s0))
          as [[] ?|? ?|?];
        [ destruct H as (? & Hh' & Hb' & Hi' & Hd' & Ht' & Hn' & Hm' & He');
          simpl in Hh', Hb', Hd', Ht', Hn', Hm', He';
          rewrite Hb in Hb'; rewrite Hd in Hd'; rewrite Ht in Ht';
          rewrite Hn in Hn'; rewrite Hm in Hm'; rewrite He in He';
          rewrite Hheap in Hh';
          clear Hb Hd Ht Hn Hm He Hi Hheap;
          rename Hb' into Hb, Hd' into Hd, Ht' into Ht, Hn' into Hn,
                 Hm' into Hm, He' into He, Hi' into Hi, Hh' into Hheap
        | destruct H as (-> & Hf' & Hi' & Ht' & Hn' & Hm');
          simpl in Ht', Hn', Hm';
          split; [reflexivity|];
          split; [right; left; apply (symbols_found_missing sym);
                  [unfold looked_up; simpl; tauto|exact Hf']|];
          repeat split; congruence
        | destruct H ]
    end.
  simpl. rewrite Hb.
  split; [reflexivity|]. split.
  { unfold symbols_found.
    repeat match goal with
      | H : dlsym_next P _ = true |- _ => rewrite H; clear H
      end.
    reflexivity. }
  split; [exact Hlt|]. split; [reflexivity|]. split; [reflexivity|].
  split; [exact Hd|]. split; [|auto].
  unfold looked_up. cbn [tail]. rewrite !calloc_calls_cons.
  exact Hheap.
Qed.

End BootstrapCalls.

(** ** The further properties at work on the small platforms *)

(** Without the bound on the requests the blocks of the stand-in
    can overlap: the second request wraps the offset around and moves
    it back by one, so that the third block starts inside the
    second. *)
Example stand_in_blocks_overlap_on_wrap :
  returned (dummy_callocs toy [(1, 32); (2 ^ 64 - 1, 1); (1, 1)] bootstrapping)
    = Some [4096; 4352; 4344].
Proof. vm_compute. reflexivity. Qed.

(** [init] on the small platform when [dlsym] calls [calloc] once: the
    stand-in serves the call and [init] returns. *)
Example init_with_calloc_of_dlsym :
  returned (init_calling toy stack asks_once fresh) = Some tt /\
  boot (after (init_calling toy stack asks_once) fresh) = booted /\
  dummy_offset (after (init_calling toy stack asks_once) fresh) = 32 /\
  in_handler (after (init_calling toy stack asks_once) fresh) = false.
Proof. repeat split; vm_compute; reflexivity. Qed.

Lemma init_all_or_nothing_witness :
  0 <= dummy_offset fresh < 1024 /\
  Forall (fun r => 0 <= r.1 * r.2 < 2 ^ 63) (asks_once "calloc") /\
  match init_calling toy stack asks_once fresh with
  | Returned _ st' =>
      in_handler fresh = false /\ symbols_found toy = true /\
      dummy_offset fresh + requested (asks_once "calloc") < 1024 /\
      boot st' = booted /\ in_handler st' = false /\
      dummy_offset st' = dummy_offset fresh + requested (asks_once "calloc") /\
      heap st' =
        (true_calls toy (calloc_calls asks_once (tail looked_up)) (heap fresh)).2 /\
      threadData st' = threadData fresh /\
      next_cache_id st' = next_cache_id fresh /\
      next_thread_id st' = next_thread_id fresh /\ stderr st' = stderr fresh
  | Exited code st' =>
      code = 1 /\
      (in_handler fresh = true \/ symbols_found toy = false \/
       1024 <= dummy_offset fresh + requested (asks_once "calloc")) /\
      in_handler st' = true /\ threadData st' = threadData fresh /\
      next_cache_id st' = next_cache_id fresh /\
      next_thread_id st' = next_thread_id fresh
  | Faulted _ => False
  end.
Proof.
  assert (Ho : 0 <= dummy_offset fresh < 1024) by (simpl; lia).
  assert (Hreqs : Forall (fun r => 0 <= r.1 * r.2 < 2 ^ 63) (asks_once "calloc")).
  { change (asks_once "calloc") with [(1, 32)]. repeat constructor; simpl; lia. }
  split; [exact Ho|]. split; [exact Hreqs|].
  exact (init_all_or_nothing toy stack asks_once fresh Ho Hreqs).
Defined.

Lemma live_ids_distinct : ids_distinct (cache_of live) (next_cache_id live).
Proof.
  change (cache_of live) with (ipCache live_session).
  unfold live_session. simpl. split.
  - intros k e H. apply lookup_singleton_Some in H as [<- <-]. simpl. lia.
  - intros k1 k2 e1 e2 H1 H2 _.
    apply lookup_singleton_Some in H1 as [<- _].
    apply lookup_singleton_Some in H2 as [<- _]. reflexivity.
Qed.

Lemma init_reports_first_missing_witness :
  in_handler bare = false /\
  exists st',
    init stripped bare = Exited 1 st' /\
    stderr st' =
      (stderr bare ++
       ["could not find original function " +:+ "realloc" +:+ newline])%list.
Proof.
  split; [reflexivity|].
  exact (proj1 (init_reports_first_missing stripped bare) eq_refl).
Defined.

Lemma calloc_served_by_stand_in_witness :
  real_calloc (boot bootstrapping) = calloc_dummy /\
  in_handler bootstrapping = true /\
  let offset := wrap64 (dummy_offset bootstrapping + wrap64 (1 * 32)) in
  match calloc toy stack 1 32 bootstrapping with
  | Returned r st' =>
      r = wrap64 (dummy_buf toy + 8 * dummy_offset bootstrapping) /\
      st' = set_dummy_offset toy offset bootstrapping /\ offset < 1024
  | Exited code st' =>
      code = 1 /\ 1024 <= offset /\ heap st' = heap bootstrapping /\
      threadData st' = threadData bootstrapping
  | Faulted _ => False
  end.
Proof.
  split; [reflexivity|]. split; [reflexivity|].
  exact (calloc_served_by_stand_in toy stack 1 32 bootstrapping eq_refl eq_refl).
Defined.

Lemma stand_in_capacity_witness :
  0 <= dummy_offset bootstrapping < 1024 /\
  Forall (fun r => 0 <= r.1 * r.2 < 2 ^ 63) [(1, 32); (2, 8)] /\
  exists rs st',
    dummy_callocs toy [(1, 32); (2, 8)] bootstrapping = Returned rs st' /\
    length rs = 2%nat /\
    dummy_offset st' = 48 /\
    heap st' = heap bootstrapping /\ threadData st' = threadData bootstrapping.
Proof.
  assert (Ho : 0 <= dummy_offset bootstrapping < 1024) by (simpl; lia).
  assert (Hreqs : Forall (fun r => 0 <= r.1 * r.2 < 2 ^ 63) [(1, 32); (2, 8)])
    by (repeat constructor; simpl; lia).
  split; [exact Ho|]. split; [exact Hreqs|].
  exact (stand_in_capacity toy [(1, 32); (2, 8)] bootstrapping Ho Hreqs).
Defined.

Lemma stand_in_blocks_disjoint_witness :
  dummy_callocs toy [(1, 32); (2, 8)] bootstrapping =
    Returned [4096; 4352] (after (dummy_callocs toy [(1, 32); (2, 8)]) bootstrapping) /\
  forall i j r r' num size,
    (i < j)%nat -> [4096; 4352] !! i = Some r -> [4096; 4352] !! j = Some r' ->
    [(1, 32); (2, 8)] !! i = Some (num, size) ->
    r + num * size <= r'.
Proof.
  assert (Hrun : dummy_callocs toy [(1, 32); (2, 8)] bootstrapping =
                 Returned [4096; 4352]
                   (after (dummy_callocs toy [(1, 32); (2, 8)]) bootstrapping))
    by reflexivity.
  split; [exact Hrun|].
  refine (proj2 (stand_in_blocks_disjoint toy [(1, 32); (2, 8)] bootstrapping
                   _ [4096; 4352] _ _ _ _ Hrun)).
  - simpl; lia.
  - repeat constructor; simpl; lia.
  - simpl; lia.
  - simpl; lia.
Defined.

Lemma healthy_thread_stays_healthy_witness :
  healthy fresh /\
  exists rs st',
    run_calls toy [(stack, call_malloc 8); (plain_stack, call_free 5)] fresh =
      Returned rs st' /\
    length rs = 2%nat /\
    healthy st' /\
    ([(stack, call_malloc 8); (plain_stack, call_free 5)] <> [] ->
     boot st' = booted) /\
    stderr st' = stderr fresh /\
    exists chunks, written st' = (written fresh ++ chunks)%list.
Proof.
  assert (H : healthy fresh).
  { unfold healthy. split; [reflexivity|]. split; [vm_compute; reflexivity|].
    right. split; reflexivity. }
  split; [exact H|].
  exact (healthy_thread_stays_healthy toy
           [(stack, call_malloc 8); (plain_stack, call_free 5)] fresh H).
Defined.

Lemma session_kept_witness :
  bootstraps (call_malloc 8) live /\ threadData live = Some live_session /\
  exists st' td' chunks,
    run_call toy stack (call_malloc 8) live =
      Returned (true_call toy (call_malloc 8) (heap live)).1 st' /\
    threadData st' = Some td' /\
    thread_id td' = thread_id live_session /\
    f_path (out td') = f_path (out live_session) /\
    f_mode (out td') = f_mode (out live_session) /\
    f_written (out td') = (f_written (out live_session) ++ chunks)%list /\
    next_thread_id st' = next_thread_id live /\
    in_handler st' = in_handler live.
Proof.
  assert (Hboot : bootstraps (call_malloc 8) live) by (left; reflexivity).
  split; [exact Hboot|]. split; [reflexivity|].
  exact (session_kept toy stack (call_malloc 8) live live_session Hboot eq_refl).
Defined.

Lemma silent_after_thread_exit_witness :
  boot live = booted /\
  exists st1 st2,
    thread_exit toy live = Returned tt st1 /\
    run_calls toy [(stack, call_free 5); (stack, call_malloc 8)] st1 =
      Returned (true_calls toy [call_free 5; call_malloc 8] (heap live)).1 st2 /\
    heap st2 = (true_calls toy [call_free 5; call_malloc 8] (heap live)).2 /\
    threadData st2 = Some live_session /\ in_handler st2 = true /\
    next_cache_id st2 = next_cache_id live /\ stderr st2 = stderr live.
Proof.
  split; [reflexivity|].
  exact (silent_after_thread_exit toy
           [(stack, call_free 5); (stack, call_malloc 8)] live eq_refl).
Defined.

Lemma walked_stack_referenced_witness :
  threadData live = Some live_session /\
  exists st3,
    print_caller toy stack (after (print_caller toy stack) live)
      = Returned tt st3 /\
    written st3 =
      (written (after (print_caller toy stack) live) ++
       flat_map reference_of
         (trace (cache_of live) (next_cache_id live) (walked stack)))%list /\
    cache_of st3 = cache_of (after (print_caller toy stack) live) /\
    next_cache_id st3 = next_cache_id (after (print_caller toy stack) live).
Proof.
  split; [reflexivity|].
  assert (Hrun : print_caller toy stack live =
                 Returned tt (after (print_caller toy stack) live))
    by reflexivity.
  assert (Htd : threadData (after (print_caller toy stack) live) =
                Some (match threadData (after (print_caller toy stack) live) with
                      | Some td => td
                      | None => live_session
                      end))
    by reflexivity.
  exact (walked_stack_referenced toy stack live _ _ live_session _
           eq_refl Hrun Htd (fun k e H => H)).
Defined.

Lemma frames_past_stop_ignored_witness :
  threadData live = Some live_session /\
  print_caller toy stack live =
  print_caller toy
    {| frames := [frame 1 "f" 0; frame 2 "g" 0;
                  frame 150 "_Znwm" 24; frame 200 "B" 32; frame 300 "main" 0];
       ending := unw_error 8 |} live.
Proof.
  split; [reflexivity|].
  refine (frames_past_stop_ignored toy
            (frame 16 "handleMalloc" 9) (frame 32 "malloc" 40)
            (frame 1 "f" 0) (frame 2 "g" 0)
            [frame 150 "_Znwm" 24; frame 200 "B" 32; frame 300 "main" 0]
            [frame 400 "__libc_start_main" 240] unw_bottom (unw_error 8)
            live live_session eq_refl _).
  exists {| seen := frame 300 "main" 0;
            entry := {| id := 0; skip := false; stop := true |};
            cached := true |}.
  split; [vm_compute; reflexivity|reflexivity].
Defined.

Lemma identifiers_stay_distinct_witness :
  bootstraps (call_malloc 8) live /\
  ids_distinct (cache_of live) (next_cache_id live) /\
  match run_call toy stack (call_malloc 8) live with
  | Returned _ st' =>
      ids_distinct (cache_of st') (next_cache_id st') /\
      next_cache_id live <= next_cache_id st'
        <= next_cache_id live + Z.of_nat (length (walked stack))
  | Exited code _ =>
      code = 1 /\ in_handler live = false /\ session_ready live = false
  | Faulted _ => False
  end.
Proof.
  assert (Hboot : bootstraps (call_malloc 8) live) by (left; reflexivity).
  split; [exact Hboot|]. split; [exact live_ids_distinct|].
  refine (identifiers_stay_distinct toy stack (call_malloc 8) live
            Hboot live_ids_distinct _ _).
  - simpl; lia.
  - simpl; lia.
Defined.

Lemma null_pointers_recorded_witness :
  healthy settled /\
  (exists st',
     run_call stripped stack (call_free 0) settled = Returned res_void st' /\
     written st' = (written settled ++ ["-(nil)" +:+ newline])%list) /\
  exists st',
    run_call stripped stack (call_malloc 24) settled = Returned (res_ptr 0) st' /\
    written st' =
      (written settled ++
       ("+" +:+ fmt_ld 24 +:+ ":(nil) ")
         :: flat_map emitted
              (trace (cache_of settled) (next_cache_id settled) (walked stack))
         ++ [newline])%list.
Proof.
  assert (H : healthy settled).
  { unfold healthy. split; [reflexivity|]. split; [reflexivity|].
    left. reflexivity. }
  split; [exact H|].
  destruct (null_pointers_recorded stripped stack settled H) as (Hfree & Hmalloc).
  split; [exact Hfree|]. exact (Hmalloc 24 eq_refl).
Defined.

Lemma refused_file_ends_process_witness :
  bootstraps (call_malloc 64) unlucky /\ in_handler unlucky = false /\
  session_ready unlucky = false /\
  exists st',
    run_call toy stack (call_malloc 64) unlucky = Exited 1 st' /\
    stderr st' =
      (stderr unlucky ++ ["Failed to open output file: " +:+ session_path unlucky
                            +:+ newline])%list /\
    threadData st' = None /\ written st' = [].
Proof.
  assert (Hboot : bootstraps (call_malloc 64) unlucky) by (left; reflexivity).
  assert (Hno : session_ready unlucky = false) by (vm_compute; reflexivity).
  split; [exact Hboot|]. split; [reflexivity|]. split; [exact Hno|].
  exact (refused_file_ends_process toy stack (call_malloc 64) unlucky
           Hboot eq_refl Hno).
Defined.

Lemma call_inside_init_ends_process_witness :
  in_handler bootstrapping = true /\
  unset (call_malloc 32) (boot bootstrapping) = true /\
  exists st',
    run_call toy stack (call_malloc 32) bootstrapping = Exited 1 st' /\
    stderr st' =
      (stderr bootstrapping ++
       ["initialization recursion detected" +:+ newline])%list /\
    heap st' = heap bootstrapping /\
    threadData st' = threadData bootstrapping /\
    boot st' = boot bootstrapping.
Proof.
  split; [reflexivity|]. split; [reflexivity|].
  exact (call_inside_init_ends_process toy stack (call_malloc 32) bootstrapping
           eq_refl eq_refl).
Defined.

Lemma session_files_distinct_witness :
  session_path bare = "7.0" /\ session_path bare <> session_path settled.
Proof.
  split.
  - exact (proj1 (session_files_distinct stripped bare settled) eq_refl).
  - intros H.
    assert (Ha : 0 <= next_thread_id bare < 2 ^ 64) by (simpl; lia).
    assert (Hb : 0 <= next_thread_id settled < 2 ^ 64) by (simpl; lia).
    pose proof (proj2 (session_files_distinct stripped bare settled) Ha Hb H) as E.
    discriminate E.
Defined.

Lemma thread_session_opened_witness :
  threadData fresh = None /\
  exists td st',
    the_threadData toy fresh = Returned td st' /\
    threadData st' = Some td /\
    thread_id td = next_thread_id fresh /\
    next_thread_id st' = wrap64 (next_thread_id fresh + 1) /\
    f_path (out td) =
      env toy "DUMP_MALLOC_TRACE_OUTPUT" +:+ to_string_int (getpid toy)
        +:+ "." +:+ to_string_ulong (thread_id td) /\
    f_mode (out td) = "wa" /\ f_written (out td) = [] /\
    in_handler st' = in_handler fresh /\ stderr st' = stderr fresh.
Proof.
  split; [reflexivity|].
  assert (Hopen : fopen_granted toy (session_path fresh) "wa" = true)
    by (vm_compute; reflexivity).
  exact (proj1 (thread_session_opened toy fresh eq_refl) Hopen).
Defined.
